(** * Socket-Server-Template: connection lifecycle of the WebSocket relay

    A shallow embedding of the server script: the per-IP counters
    ([clientConnections]), the ['connection'] handler with its admission
    checks, the per-socket handlers (['pong'], ['message'], ['close']),
    [broadcast], the heartbeat interval and the HTTP listener's ['error']
    handler.  Handlers are state transformers over a record holding the
    script's global variables; calls that leave the process ([ws.close],
    [client.send], [client.ping], [client.terminate], logger calls) are
    appended to an output trace. *)

From stdpp Require Import gmap strings list fin_maps.
From Stdlib Require Import ZArith Lia.

Local Open Scope Z_scope.

(** ** Per-IP connection counters *)

Module PerIP.

(** [clientConnections] is a [Map] from address to a number.  The counts
    are integers far below 2^53, where JavaScript numbers are exact, and
    are modelled in [Z].

    [clientConnections.get(ip) || 0]: a missing key reads as [undefined],
    and [undefined || 0] as well as [0 || 0] is [0]. *)
Definition get_or_0 (m : gmap string Z) (ip : string) : Z :=
  match m !! ip with
  | Some n => if n =? 0 then 0 else n
  | None => 0
  end.

Definition trackClientConnection (ip : string) (m : gmap string Z) : gmap string Z :=
  let current := get_or_0 m ip in
  <[ip := current + 1]> m.

Definition untrackClientConnection (ip : string) (m : gmap string Z) : gmap string Z :=
  let current := get_or_0 m ip in
  if current <=? 1 then delete ip m else <[ip := current - 1]> m.

(** [sum(clientConnections.values())]. *)
Definition sum_values (m : gmap string Z) : Z :=
  map_fold (fun _ n acc => n + acc) 0 m.

(** A bare sequence of calls on the counter map. *)
Inductive CountOp :=
| Track (ip : string)
| Untrack (ip : string).

Definition apply_op (m : gmap string Z) (op : CountOp) : gmap string Z :=
  match op with
  | Track ip => trackClientConnection ip m
  | Untrack ip => untrackClientConnection ip m
  end.

Definition apply_ops (ops : list CountOp) (m : gmap string Z) : gmap string Z :=
  fold_left apply_op ops m.

(** Every stored count is at least 1. *)
Definition positive_counts (m : gmap string Z) : Prop :=
  forall ip n, m !! ip = Some n -> 1 <= n.

End PerIP.

(** ** The WebSocket server *)

Module Relay.
Import PerIP.

Definition MAX_CONNECTIONS_PER_IP : Z := 10.
Definition MAX_TOTAL_CONNECTIONS : Z := 1000.

(** The part of the upgrade request the handler reads:
    [req.socket.remoteAddress] and [req.headers.authorization]. *)
Record Request := {
  remoteAddress : string;
  authorization : option string
}.

Definition authenticateClient (req : Request) : bool :=
  match authorization req with
  | Some token => String.eqb token "Bearer valid-token"
  | None => false
  end.

Inductive ReadyState := CONNECTING | OPEN | CLOSING | CLOSED.

Definition is_open (r : ReadyState) : bool :=
  match r with OPEN => true | _ => false end.

(** A socket object held in [wss.clients].  [isAlive] is a property the
    script adds to the object: [None] is [undefined].  [clientIP] is the
    variable captured by the closures the ['connection'] handler attaches
    (['error'], ['pong'], ['message'], ['close']); it is [None] for a socket
    whose handler returned before attaching them. *)
Record Client := {
  wsid : nat;
  readyState : ReadyState;
  isAlive : option bool;
  clientIP : option string
}.

Inductive Level := Debug | Info | Warn | Error.

Inductive Effect :=
| ELog (level : Level) (message : string)
| EConsole (message : string)
| EClose (ws : nat) (code : Z) (reason : string)
| ESend (ws : nat) (message : string)
| EPing (ws : nat)
| ETerminate (ws : nat).

(** The script's globals, the timers the runtime keeps for [setInterval],
    and the output trace (oldest first). *)
Record Server := {
  clients : list Client;
  clientConnections : gmap string Z;
  heartbeatInterval : option nat;
  timers : list nat;
  nextTimer : nat;
  nextId : nat;
  effects : list Effect
}.

Definition init : Server :=
  {| clients := []; clientConnections := ∅; heartbeatInterval := None;
     timers := []; nextTimer := 0; nextId := 0; effects := [] |}.

Definition with_clients (cs : list Client) (s : Server) : Server :=
  {| clients := cs; clientConnections := clientConnections s;
     heartbeatInterval := heartbeatInterval s; timers := timers s;
     nextTimer := nextTimer s; nextId := nextId s; effects := effects s |}.

Definition with_counts (m : gmap string Z) (s : Server) : Server :=
  {| clients := clients s; clientConnections := m;
     heartbeatInterval := heartbeatInterval s; timers := timers s;
     nextTimer := nextTimer s; nextId := nextId s; effects := effects s |}.

Definition emit (es : list Effect) (s : Server) : Server :=
  {| clients := clients s; clientConnections := clientConnections s;
     heartbeatInterval := heartbeatInterval s; timers := timers s;
     nextTimer := nextTimer s; nextId := nextId s;
     effects := effects s ++ es |}.

Definition logger (level : Level) (message : string) (s : Server) : Server :=
  emit [ELog level message] s.

(** [wss.clients.size] *)
Definition clients_size (s : Server) : Z := Z.of_nat (length (clients s)).

(** Field updates on the socket object with identity [ws]. *)
Definition update_client (ws : nat) (f : Client -> Client) (cs : list Client)
  : list Client :=
  map (fun c => if Nat.eqb (wsid c) ws then f c else c) cs.

Definition set_readyState (r : ReadyState) (c : Client) : Client :=
  {| wsid := wsid c; readyState := r; isAlive := isAlive c; clientIP := clientIP c |}.

Definition set_isAlive (b : bool) (c : Client) : Client :=
  {| wsid := wsid c; readyState := readyState c; isAlive := Some b;
     clientIP := clientIP c |}.

Definition attach_handlers (ip : string) (c : Client) : Client :=
  {| wsid := wsid c; readyState := readyState c; isAlive := isAlive c;
     clientIP := Some ip |}.

Fixpoint find_client (ws : nat) (cs : list Client) : option Client :=
  match cs with
  | [] => None
  | c :: cs' => if Nat.eqb (wsid c) ws then Some c else find_client ws cs'
  end.

(** [Set.prototype.delete]: the element with this identity leaves the set. *)
Fixpoint remove_client (ws : nat) (cs : list Client) : list Client :=
  match cs with
  | [] => []
  | c :: cs' => if Nat.eqb (wsid c) ws then cs' else c :: remove_client ws cs'
  end.

(** [ws.close(code, reason)]: the close frame goes out and the socket is
    CLOSING until the transport is gone; the ['close'] event comes later. *)
Definition ws_close (ws : nat) (code : Z) (reason : string) (s : Server) : Server :=
  emit [EClose ws code reason]
       (with_clients (update_client ws (set_readyState CLOSING) (clients s)) s).

(** [setInterval(..., 30000)] hands out a fresh timer and keeps it alive;
    [clearInterval(h)] drops it, and is a no-op on [undefined]/[null] or on
    a timer already cleared. *)
Definition startHeartbeat (s : Server) : Server :=
  {| clients := clients s; clientConnections := clientConnections s;
     heartbeatInterval := Some (nextTimer s);
     timers := timers s ++ [nextTimer s];
     nextTimer := S (nextTimer s); nextId := nextId s; effects := effects s |}.

Definition clearInterval (h : option nat) (ts : list nat) : list nat :=
  match h with
  | Some t => filter (fun t' => t' ≠ t) ts
  | None => ts
  end.

(** ** broadcast *)

(** One callback of [wss.clients.forEach] in [broadcast]. *)
Definition broadcast_visit (ws : nat) (message : string) (includeSelf : bool)
    (client : Client) : list Effect :=
  if includeSelf then
    if is_open (readyState client) then [ESend (wsid client) message] else []
  else
    if negb (Nat.eqb (wsid client) ws) && is_open (readyState client)
    then [ESend (wsid client) message] else [].

Fixpoint forEach_effects (f : Client -> list Effect) (cs : list Client)
  : list Effect :=
  match cs with
  | [] => []
  | c :: cs' => f c ++ forEach_effects f cs'
  end.

Definition broadcast_sends (ws : nat) (message : string) (includeSelf : bool)
    (cs : list Client) : list Effect :=
  forEach_effects (broadcast_visit ws message includeSelf) cs.

Definition broadcast (ws : nat) (message : string) (includeSelf : bool)
    (s : Server) : Server :=
  emit (broadcast_sends ws message includeSelf (clients s)) s.

(** ** Heartbeat *)

(** One callback of the interval body: [client.isAlive === false] is strict,
    so an [undefined] flag takes the second branch.  [terminate()] destroys
    the transport; the socket is CLOSING until its ['close'] event. *)
Definition heartbeat_visit (client : Client) : Client * list Effect :=
  match isAlive client with
  | Some false =>
      (set_readyState CLOSING client,
       [EConsole "Terminating unresponsive client"; ETerminate (wsid client)])
  | _ =>
      let client' := set_isAlive false client in
      if is_open (readyState client')
      then (client', [EPing (wsid client')])
      else (client', [])
  end.

Fixpoint heartbeat_round (cs : list Client) : list Client * list Effect :=
  match cs with
  | [] => ([], [])
  | c :: cs' =>
      let (c', es) := heartbeat_visit c in
      let (cs'', es') := heartbeat_round cs' in
      (c' :: cs'', es ++ es')
  end.

Definition heartbeat_tick (s : Server) : Server :=
  let (cs, es) := heartbeat_round (clients s) in
  emit es (with_clients cs s).

(** ** The ['connection'] handler *)

(** The handler body after the three admission checks. *)
Definition open_session (ws : nat) (clientIP : string) (s : Server) : Server :=
  let s := with_counts (trackClientConnection clientIP (clientConnections s)) s in
  let s := logger Info "Connection opened" s in
  let s := with_clients
             (update_client ws (fun c => set_isAlive true (attach_handlers clientIP c))
                            (clients s)) s in
  if (clients_size s =? 1) && negb (bool_decide (is_Some (heartbeatInterval s)))
  then startHeartbeat (logger Info "Starting heartbeat interval" s)
  else s.

Definition on_connection (ws : nat) (req : Request) (s : Server) : Server :=
  let clientIP := remoteAddress req in
  if negb (authenticateClient req) then
    ws_close ws 1008 "Unauthorized"
             (logger Warn "Unauthorized connection attempt" s)
  else if clients_size s >=? MAX_TOTAL_CONNECTIONS then
    ws_close ws 1013 "Server overloaded"
             (logger Warn "Server at max capacity" s)
  else
    let connectionsFromIP := get_or_0 (clientConnections s) clientIP in
    if connectionsFromIP >=? MAX_CONNECTIONS_PER_IP then
      ws_close ws 1008 "Too many connections"
               (logger Warn "Too many connections from IP" s)
    else open_session ws clientIP s.

(** ** Per-socket handlers *)

Definition on_pong (ws : nat) (s : Server) : Server :=
  with_clients (update_client ws (set_isAlive true) (clients s)) s.

Definition on_message (ws : nat) (data : string) (s : Server) : Server :=
  let stringifiedData := data in
  if String.eqb stringifiedData "pong" then
    logger Debug "Heartbeat pong received" s
  else broadcast ws stringifiedData false s.

Definition stop_heartbeat (s : Server) : Server :=
  {| clients := clients s; clientConnections := clientConnections s;
     heartbeatInterval := None;
     timers := clearInterval (heartbeatInterval s) (timers s);
     nextTimer := nextTimer s; nextId := nextId s; effects := effects s |}.

Definition on_close (clientIP : string) (s : Server) : Server :=
  let s := with_counts (untrackClientConnection clientIP (clientConnections s)) s in
  let s := logger Info "Connection closed" s in
  if (clients_size s =? 0) && bool_decide (is_Some (heartbeatInterval s))
  then stop_heartbeat (logger Info "Stopping heartbeat interval - no clients connected" s)
  else s.

(** [wss.on('close')]: the timer is cleared, the variable keeps its value. *)
Definition on_wss_close (s : Server) : Server :=
  {| clients := clients s; clientConnections := clientConnections s;
     heartbeatInterval := heartbeatInterval s;
     timers := clearInterval (heartbeatInterval s) (timers s);
     nextTimer := nextTimer s; nextId := nextId s; effects := effects s |}.

(** ** Events delivered by the runtime and the ws library

    The library adds a new socket to [wss.clients] before it emits
    ['connection'], and removes it in a ['close'] listener of its own that
    was attached before the script's: the script relies on both when it
    tests [wss.clients.size === 1] for the first connection and
    [wss.clients.size === 0] for the last one.  A socket whose handler
    returned early has no listeners of the script, so its events only
    change the library's set. *)
Inductive Event :=
| Connection (req : Request)
| Pong (ws : nat)
| Message (ws : nat) (data : string)
| CloseFrame (ws : nat)
| Close (ws : nat)
| Tick
| WssClose.

Definition new_client (id : nat) : Client :=
  {| wsid := id; readyState := OPEN; isAlive := None; clientIP := None |}.

Definition accept_socket (s : Server) : Server :=
  {| clients := clients s ++ [new_client (nextId s)];
     clientConnections := clientConnections s;
     heartbeatInterval := heartbeatInterval s; timers := timers s;
     nextTimer := nextTimer s; nextId := S (nextId s); effects := effects s |}.

Definition has_handlers (c : Client) : bool :=
  match clientIP c with Some _ => true | None => false end.

Definition step (s : Server) (ev : Event) : Server :=
  match ev with
  | Connection req => on_connection (nextId s) req (accept_socket s)
  | Pong ws =>
      match find_client ws (clients s) with
      | Some c => if has_handlers c then on_pong ws s else s
      | None => s
      end
  | Message ws data =>
      match find_client ws (clients s) with
      | Some c => if has_handlers c then on_message ws data s else s
      | None => s
      end
  | CloseFrame ws =>
      with_clients (update_client ws (set_readyState CLOSING) (clients s)) s
  | Close ws =>
      match find_client ws (clients s) with
      | Some c =>
          let s' := with_clients (remove_client ws (clients s)) s in
          match clientIP c with
          | Some ip => on_close ip s'
          | None => s'
          end
      | None => s
      end
  | Tick =>
      match timers s with
      | [] => s
      | _ :: _ => heartbeat_tick s
      end
  | WssClose => on_wss_close s
  end.

Definition run (evs : list Event) (s : Server) : Server :=
  fold_left step evs s.

(** The accepted sockets: those in [wss.clients] that carry the script's
    handlers, i.e. those counted by [trackClientConnection] and not yet
    released by [untrackClientConnection]. *)
Definition activeConnections (s : Server) : list Client :=
  List.filter has_handlers (clients s).

(** The messages [client.send] delivered to socket [ws], in order. *)
Fixpoint deliveries (ws : nat) (es : list Effect) : list string :=
  match es with
  | [] => []
  | ESend ws' message :: es' =>
      if Nat.eqb ws' ws then message :: deliveries ws es' else deliveries ws es'
  | _ :: es' => deliveries ws es'
  end.

(** ** The admission checks, named

    Which of the handler's three checks fails first, and the arguments of
    the [logger.warn] and [ws.close] calls of that branch. *)
Inductive Rejection := Unauthorized | CapacityExceeded | OriginCapacityExceeded.

Definition rejection (req : Request) (s : Server) : option Rejection :=
  if negb (authenticateClient req) then Some Unauthorized
  else if clients_size s >=? MAX_TOTAL_CONNECTIONS then Some CapacityExceeded
  else if get_or_0 (clientConnections s) (remoteAddress req) >=? MAX_CONNECTIONS_PER_IP
       then Some OriginCapacityExceeded
       else None.

Definition close_code (r : Rejection) : Z :=
  match r with
  | Unauthorized => 1008
  | CapacityExceeded => 1013
  | OriginCapacityExceeded => 1008
  end.

Definition close_reason (r : Rejection) : string :=
  match r with
  | Unauthorized => "Unauthorized"
  | CapacityExceeded => "Server overloaded"
  | OriginCapacityExceeded => "Too many connections"
  end.

Definition warning (r : Rejection) : string :=
  match r with
  | Unauthorized => "Unauthorized connection attempt"
  | CapacityExceeded => "Server at max capacity"
  | OriginCapacityExceeded => "Too many connections from IP"
  end.

(** ** Concrete requests and traces *)

Definition valid_request (ip : string) : Request :=
  {| remoteAddress := ip; authorization := Some "Bearer valid-token" |}.

Definition anonymous_request (ip : string) : Request :=
  {| remoteAddress := ip; authorization := None |}.

Definition digit (k : nat) : string :=
  String (Ascii.ascii_of_nat (48 + k)) EmptyString.

(** [origin k] for [k < 100]: one hundred distinct addresses. *)
Definition origin (k : nat) : string :=
  String.append "10.0."
    (String.append (digit (k / 10)) (String.append "." (digit (k mod 10)))).

(** [n] authenticated connection attempts, ten per address. *)
Definition crowd (n : nat) : list Event :=
  map (fun k => Connection (valid_request (origin (k / 10)))) (seq 0 n).

(** Five sockets: 0 to 3 are OPEN, socket 4 has received the peer's close
    frame and is CLOSING. *)
Definition room : Server :=
  run (crowd 5 ++ [CloseFrame 4%nat]) init.

(** One accepted socket, 0, from [origin 0]; the heartbeat timer runs. *)
Definition lobby : Server :=
  run [Connection (valid_request (origin 0))] init.

Definition socket0 (r : ReadyState) (alive : bool) : Client :=
  {| wsid := 0; readyState := r; isAlive := Some alive; clientIP := Some (origin 0) |}.

(** The effects a heartbeat round adds to the trace. *)
Definition tick_effects (s : Server) : list Effect :=
  snd (heartbeat_round (clients s)).

(** Every socket of the set with identity [ws] satisfies [R]. *)
Definition all_ws (ws : nat) (R : Client -> Prop) (cs : list Client) : Prop :=
  forall c, In c cs -> wsid c = ws -> R c.

(** A ['pong'] frame of [ws] arrives before the next heartbeat round. *)
Definition answered (ws : nat) (evs : list Event) : Prop :=
  forall l2 l3, evs = l2 ++ Tick :: l3 -> In (Pong ws) l2.

(** From socket [ws] no ['pong'] frame arrives, it is not closed, and the
    server is not shut down. *)
Definition silent (ws : nat) (evs : list Event) : Prop :=
  Forall (fun ev => ev <> Pong ws /\ ev <> Close ws /\ ev <> WssClose) evs.

(** Between any two heartbeat rounds a ['pong'] frame of [ws] arrives. *)
Definition pong_between (ws : nat) (evs : list Event) : Prop :=
  forall l1 l2 l3, evs = l1 ++ Tick :: l2 ++ Tick :: l3 -> In (Pong ws) l2.

(** ** Invariants of the reachable states *)

(** Occurrences of [Some ip], and of any [Some _], in the list of captured
    addresses of the sockets. *)
Fixpoint n_ip (ip : string) (l : list (option string)) : nat :=
  match l with
  | [] => O
  | o :: l' => ((if bool_decide (o = Some ip) then 1 else 0) + n_ip ip l')%nat
  end.

Fixpoint n_some (l : list (option string)) : nat :=
  match l with
  | [] => O
  | o :: l' => ((match o with Some _ => 1 | None => 0 end) + n_some l')%nat
  end.

(** The counters agree with the sockets that carry handlers; identities
    are below the next one to be handed out. *)
Record Inv (s : Server) : Prop := {
  inv_fresh : forall c, In c (clients s) -> (wsid c < nextId s)%nat;
  inv_count : forall ip,
    get_or_0 (clientConnections s) ip = Z.of_nat (n_ip ip (map clientIP (clients s)));
  inv_pos : positive_counts (clientConnections s);
  inv_sum :
    sum_values (clientConnections s) = Z.of_nat (n_some (map clientIP (clients s)))
}.

(** The timers alive are at most the one [heartbeatInterval] refers to. *)
Definition timer_inv (s : Server) : Prop :=
  timers s = [] \/ exists t, timers s = [t] /\ heartbeatInterval s = Some t.

(** Every socket of the set carries the script's handlers. *)
Definition all_handlers (s : Server) : Prop :=
  forall c, In c (clients s) -> has_handlers c = true.

(** The heartbeat timer runs exactly when the set is non-empty. *)
Definition heartbeat_tied (s : Server) : Prop :=
  (timers s = [] /\ heartbeatInterval s = None /\ clients s = [])
  \/ (exists t, timers s = [t] /\ heartbeatInterval s = Some t /\ clients s <> []).

(** A trace without server shutdown along which no socket without handlers
    (a rejected one) is ever in the set. *)
Fixpoint no_rejections (evs : list Event) (s : Server) : Prop :=
  match evs with
  | [] => True
  | ev :: evs' =>
      ev <> WssClose /\ all_handlers (step s ev) /\ no_rejections evs' (step s ev)
  end.

(** Identities in the set are distinct and below the next one. *)
Definition distinct_ids (s : Server) : Prop :=
  NoDup (map wsid (clients s)) /\ forall w, In w (map wsid (clients s)) -> (w < nextId s)%nat.

End Relay.

(** ** The HTTP listener *)

Module Listener.

(** What the ['error'] handler of the HTTP server and its retry callback
    do to the listener: calls of [server.listen] and [server.close], the
    delays (ms) of pending [setTimeout] callbacks, and the error log. *)
Record Http := {
  listenCalls : nat;
  closeCalls : nat;
  timeouts : list Z;
  errorLog : list string
}.

(** State after the script's top level ran: [server.listen(serverPort)]
    was called once. *)
Definition init : Http :=
  {| listenCalls := 1; closeCalls := 0; timeouts := []; errorLog := [] |}.

Definition log_error (message : string) (h : Http) : Http :=
  {| listenCalls := listenCalls h; closeCalls := closeCalls h;
     timeouts := timeouts h; errorLog := errorLog h ++ [message] |}.

Definition setTimeout (delay : Z) (h : Http) : Http :=
  {| listenCalls := listenCalls h; closeCalls := closeCalls h;
     timeouts := timeouts h ++ [delay]; errorLog := errorLog h |}.

(** The callback handed to [setTimeout]. *)
Definition retry (h : Http) : Http :=
  {| listenCalls := S (listenCalls h); closeCalls := S (closeCalls h);
     timeouts := timeouts h; errorLog := errorLog h |}.

(** [server.on('error', ...)], on an error whose [code] is [code]. *)
Definition on_error (code : string) (h : Http) : Http :=
  let h := log_error "HTTP Server error:" h in
  if String.eqb code "EADDRINUSE" then
    setTimeout 1000 (log_error "Port already in use, retrying..." h)
  else h.

Inductive Event :=
| ServerError (code : string)
| TimeoutFires.

Definition step (h : Http) (ev : Event) : Http :=
  match ev with
  | ServerError code => on_error code h
  | TimeoutFires =>
      match timeouts h with
      | [] => h
      | _ :: rest =>
          retry {| listenCalls := listenCalls h; closeCalls := closeCalls h;
                   timeouts := rest; errorLog := errorLog h |}
      end
  end.

Definition run (evs : list Event) (h : Http) : Http := fold_left step evs h.

(** Retries performed so far: [server.listen] calls made by the callback. *)
Definition retry_attempts (h : Http) : nat := listenCalls h - 1.

(** The port stays taken for [n] attempts in a row: every [listen] fails
    with EADDRINUSE and the timer armed by the handler then fires. *)
Fixpoint port_busy (n : nat) : list Event :=
  match n with
  | O => []
  | S n' => ServerError "EADDRINUSE" :: TimeoutFires :: port_busy n'
  end.

Definition is_EADDRINUSE (ev : Event) : bool :=
  match ev with
  | ServerError code => String.eqb code "EADDRINUSE"
  | TimeoutFires => false
  end.

Definition is_timeout (ev : Event) : bool :=
  match ev with
  | ServerError _ => false
  | TimeoutFires => true
  end.

Fixpoint count_events (p : Event -> bool) (evs : list Event) : nat :=
  match evs with
  | [] => O
  | ev :: evs' => ((if p ev then 1 else 0) + count_events p evs')%nat
  end.

End Listener.

(** ** The HTTP endpoints that read the relay's state *)

Module Endpoints.
Import PerIP Relay.

(** [GET /metrics]: the two fields computed from the script's state,
    [activeConnections: wss.clients.size] and
    [connectionsPerIP: Array.from(clientConnections.entries())].  The uptime
    and memory figures come from the runtime and are left out.  The script's
    [Map] lists its pairs in insertion order; [map_to_list] lists the same
    pairs in the order of the finite map. *)
Record Metrics := {
  metrics_activeConnections : Z;
  metrics_connectionsPerIP : list (string * Z)
}.

Definition metrics (s : Server) : Metrics :=
  {| metrics_activeConnections := clients_size s;
     metrics_connectionsPerIP := map_to_list (clientConnections s) |}.

(** [GET /health]: the field [connections: wss.clients.size]. *)
Definition health_connections (s : Server) : Z := clients_size s.

Definition sum_counts (l : list (string * Z)) : Z :=
  foldr (fun e acc => snd e + acc) 0 l.

(** A socket of the set without the script's handlers is CLOSING. *)
Definition rejected_closing (s : Server) : Prop :=
  forall c, In c (clients s) -> has_handlers c = false -> readyState c = CLOSING.

Definition is_server_error (ev : Listener.Event) : bool :=
  negb (Listener.is_timeout ev).

End Endpoints.

(** * Properties of the per-IP counters *)

Module PerIPFacts.
Import PerIP.

Lemma get_or_0_default (m : gmap string Z) ip : get_or_0 m ip = default 0 (m !! ip).
Proof.
  unfold get_or_0. destruct (m !! ip) as [n|]; simpl; [|done].
  destruct (Z.eqb_spec n 0); congruence.
Qed.

Lemma sum_values_empty : sum_values ∅ = 0.
Proof. apply map_fold_empty. Qed.

Lemma sum_values_fresh (m : gmap string Z) ip v :
  m !! ip = None -> sum_values (<[ip := v]> m) = v + sum_values m.
Proof.
  intros Hnone. unfold sum_values.
  apply (map_fold_insert_L (fun _ n acc => n + acc)); [|done].
  intros; lia.
Qed.

Lemma sum_values_delete (m : gmap string Z) ip :
  sum_values (delete ip m) = sum_values m - get_or_0 m ip.
Proof.
  rewrite get_or_0_default. destruct (m !! ip) as [n|] eqn:Hip; simpl.
  - unfold sum_values.
    rewrite (map_fold_delete_L (fun _ n acc => n + acc) 0 ip n m); [lia| |done].
    intros; lia.
  - rewrite delete_id by done. lia.
Qed.

Lemma sum_values_insert (m : gmap string Z) ip v :
  sum_values (<[ip := v]> m) = sum_values m - get_or_0 m ip + v.
Proof.
  rewrite <- insert_delete_eq, sum_values_fresh by apply lookup_delete_eq.
  rewrite sum_values_delete. lia.
Qed.

Lemma get_or_0_track_eq m ip :
  get_or_0 (trackClientConnection ip m) ip = get_or_0 m ip + 1.
Proof.
  unfold trackClientConnection.
  rewrite (get_or_0_default (<[_ := _]> _)), lookup_insert_eq. done.
Qed.

Lemma get_or_0_track_ne m ip ip' :
  ip ≠ ip' -> get_or_0 (trackClientConnection ip m) ip' = get_or_0 m ip'.
Proof.
  intros Hne. unfold trackClientConnection.
  rewrite !get_or_0_default, lookup_insert_ne; done.
Qed.

Lemma get_or_0_untrack_ne m ip ip' :
  ip ≠ ip' -> get_or_0 (untrackClientConnection ip m) ip' = get_or_0 m ip'.
Proof.
  intros Hne. unfold untrackClientConnection.
  destruct (_ <=? _); rewrite !get_or_0_default;
    [rewrite lookup_delete_ne | rewrite lookup_insert_ne]; done.
Qed.

Lemma positive_get_or_0 m ip : positive_counts m -> 0 <= get_or_0 m ip.
Proof.
  intros Hpos. rewrite get_or_0_default.
  destruct (m !! ip) as [n|] eqn:Hip; simpl; [|lia].
  specialize (Hpos _ _ Hip). lia.
Qed.

Lemma positive_track m ip : positive_counts m -> positive_counts (trackClientConnection ip m).
Proof.
  intros Hpos ip' n. unfold trackClientConnection.
  destruct (decide (ip = ip')) as [->|Hne].
  - rewrite lookup_insert_eq. intros [= <-].
    pose proof (positive_get_or_0 m ip' Hpos). lia.
  - rewrite lookup_insert_ne by done. apply Hpos.
Qed.

Lemma positive_untrack m ip : positive_counts m -> positive_counts (untrackClientConnection ip m).
Proof.
  intros Hpos ip' n. unfold untrackClientConnection.
  destruct (Z.leb_spec (get_or_0 m ip) 1) as [Hle|Hgt].
  - destruct (decide (ip = ip')) as [->|Hne].
    + rewrite lookup_delete_eq. done.
    + rewrite lookup_delete_ne by done. apply Hpos.
  - destruct (decide (ip = ip')) as [->|Hne].
    + rewrite lookup_insert_eq. intros [= <-]. lia.
    + rewrite lookup_insert_ne by done. apply Hpos.
Qed.

Lemma positive_apply_ops ops : forall m,
  positive_counts m -> positive_counts (apply_ops ops m).
Proof.
  induction ops as [|op ops IH]; intros m Hpos; [done|].
  simpl. apply IH. destruct op; [by apply positive_track | by apply positive_untrack].
Qed.

Lemma get_or_0_untrack_eq m ip :
  1 <= get_or_0 m ip ->
  get_or_0 (untrackClientConnection ip m) ip = get_or_0 m ip - 1.
Proof.
  intros Hge. unfold untrackClientConnection.
  destruct (Z.leb_spec (get_or_0 m ip) 1) as [Hle|Hgt].
  - rewrite (get_or_0_default (delete _ _)), lookup_delete_eq. simpl. lia.
  - rewrite (get_or_0_default (<[_ := _]> _)), lookup_insert_eq. done.
Qed.

Lemma sum_values_track m ip :
  sum_values (trackClientConnection ip m) = sum_values m + 1.
Proof. unfold trackClientConnection. rewrite sum_values_insert. lia. Qed.

Lemma sum_values_untrack m ip :
  1 <= get_or_0 m ip ->
  sum_values (untrackClientConnection ip m) = sum_values m - 1.
Proof.
  intros Hge. unfold untrackClientConnection.
  destruct (Z.leb_spec (get_or_0 m ip) 1) as [Hle|Hgt].
  - rewrite sum_values_delete. lia.
  - rewrite sum_values_insert. lia.
Qed.

(** C10. [untrackClientConnection] on an origin without an entry returns the
    map unchanged, and after any sequence of track/untrack calls on the
    initially empty map every stored count is at least 1 (never zero or
    negative). *)
Theorem C10_untrack_absent_noop_counts_positive :
  (forall (m : gmap string Z) (ip : string),
      m !! ip = None -> untrackClientConnection ip m = m)
  /\ (forall (ops : list CountOp) (ip : string) (n : Z),
      apply_ops ops ∅ !! ip = Some n -> 1 <= n).
Proof.
  split.
  - intros m ip Hnone. unfold untrackClientConnection, get_or_0.
    rewrite Hnone. simpl. by apply delete_id.
  - intros ops. apply positive_apply_ops. intros ip n. by rewrite lookup_empty.
Qed.

Lemma C10_witness :
  untrackClientConnection "10.0.0.7" {[ "10.0.0.1" := 2 ]} = {[ "10.0.0.1" := 2 ]}
  /\ 1 <= 1.
Proof.
  split.
  - apply (proj1 C10_untrack_absent_noop_counts_positive). reflexivity.
  - apply (proj2 C10_untrack_absent_noop_counts_positive
             [Track "10.0.0.1"; Track "10.0.0.1"; Untrack "10.0.0.1"] "10.0.0.1" 1).
    reflexivity.
Defined.

End PerIPFacts.

(** * Properties of the relay *)

Module RelayFacts.
Import PerIP PerIPFacts Relay.

(** ** Bookkeeping: which fields a handler touches *)

Lemma n_ip_app ip l1 l2 : n_ip ip (l1 ++ l2) = (n_ip ip l1 + n_ip ip l2)%nat.
Proof. induction l1 as [|o l1 IH]; simpl; [done|]. rewrite IH. lia. Qed.

Lemma n_some_app l1 l2 : n_some (l1 ++ l2) = (n_some l1 + n_some l2)%nat.
Proof. induction l1 as [|o l1 IH]; simpl; [done|]. rewrite IH. lia. Qed.

Lemma active_length s :
  length (activeConnections s) = n_some (map clientIP (clients s)).
Proof.
  unfold activeConnections. induction (clients s) as [|c cs IH]; simpl; [done|].
  unfold has_handlers at 1. destruct (clientIP c); simpl; rewrite IH; done.
Qed.

Lemma update_client_ips ws f cs :
  (forall c, clientIP (f c) = clientIP c) ->
  map clientIP (update_client ws f cs) = map clientIP cs.
Proof.
  intros Hf. unfold update_client. induction cs as [|c cs IH]; simpl; [done|].
  rewrite IH. destruct (Nat.eqb _ _); by rewrite ?Hf.
Qed.

Lemma update_client_ids ws f cs :
  (forall c, wsid (f c) = wsid c) ->
  map wsid (update_client ws f cs) = map wsid cs.
Proof.
  intros Hf. unfold update_client. induction cs as [|c cs IH]; simpl; [done|].
  rewrite IH. destruct (Nat.eqb _ _); by rewrite ?Hf.
Qed.

Lemma update_client_absent ws f cs :
  (forall c, In c cs -> wsid c ≠ ws) -> update_client ws f cs = cs.
Proof.
  intros Hne. unfold update_client. induction cs as [|c cs IH]; simpl; [done|].
  rewrite IH by (intros; apply Hne; by right).
  destruct (Nat.eqb_spec (wsid c) ws) as [Heq|]; [|done].
  exfalso. apply (Hne c); [by left | done].
Qed.

Lemma update_client_app ws f cs1 cs2 :
  update_client ws f (cs1 ++ cs2) = update_client ws f cs1 ++ update_client ws f cs2.
Proof. unfold update_client. apply map_app. Qed.

Lemma heartbeat_visit_ip c : clientIP (fst (heartbeat_visit c)) = clientIP c.
Proof.
  unfold heartbeat_visit. destruct (isAlive c) as [[]|]; simpl; try done;
    destruct (is_open _); done.
Qed.

Lemma heartbeat_visit_id c : wsid (fst (heartbeat_visit c)) = wsid c.
Proof.
  unfold heartbeat_visit. destruct (isAlive c) as [[]|]; simpl; try done;
    destruct (is_open _); done.
Qed.

Lemma heartbeat_round_clients cs :
  fst (heartbeat_round cs) = map (fun c => fst (heartbeat_visit c)) cs.
Proof.
  induction cs as [|c cs IH]; simpl; [done|].
  destruct (heartbeat_visit c) as [c' es], (heartbeat_round cs) as [cs' es'].
  simpl in *. by rewrite IH.
Qed.

Lemma heartbeat_round_effects cs :
  snd (heartbeat_round cs) = forEach_effects (fun c => snd (heartbeat_visit c)) cs.
Proof.
  induction cs as [|c cs IH]; simpl; [done|].
  destruct (heartbeat_visit c) as [c' es], (heartbeat_round cs) as [cs' es'].
  simpl in *. by rewrite IH.
Qed.

Lemma heartbeat_round_ips cs :
  map clientIP (fst (heartbeat_round cs)) = map clientIP cs.
Proof.
  rewrite heartbeat_round_clients, map_map.
  apply map_ext. apply heartbeat_visit_ip.
Qed.

Lemma heartbeat_round_ids cs :
  map wsid (fst (heartbeat_round cs)) = map wsid cs.
Proof.
  rewrite heartbeat_round_clients, map_map.
  apply map_ext. apply heartbeat_visit_id.
Qed.

Lemma heartbeat_tick_clients s :
  clients (heartbeat_tick s) = fst (heartbeat_round (clients s)).
Proof. unfold heartbeat_tick. destruct (heartbeat_round (clients s)). done. Qed.

Lemma heartbeat_tick_effects s :
  effects (heartbeat_tick s) = effects s ++ snd (heartbeat_round (clients s)).
Proof. unfold heartbeat_tick. destruct (heartbeat_round (clients s)). done. Qed.

Lemma heartbeat_tick_globals s :
  clientConnections (heartbeat_tick s) = clientConnections s
  /\ heartbeatInterval (heartbeat_tick s) = heartbeatInterval s
  /\ timers (heartbeat_tick s) = timers s
  /\ nextTimer (heartbeat_tick s) = nextTimer s
  /\ nextId (heartbeat_tick s) = nextId s.
Proof. unfold heartbeat_tick. destruct (heartbeat_round (clients s)). done. Qed.

Lemma find_client_In ws cs c : find_client ws cs = Some c -> In c cs /\ wsid c = ws.
Proof.
  induction cs as [|c' cs IH]; simpl; [done|].
  destruct (Nat.eqb_spec (wsid c') ws) as [Heq|Hne].
  - intros [= ->]. split; [by left | done].
  - intros Hf. destruct (IH Hf). split; [by right | done].
Qed.

Lemma remove_client_In ws cs c : In c (remove_client ws cs) -> In c cs.
Proof.
  induction cs as [|c' cs IH]; simpl; [done|].
  destruct (Nat.eqb _ _); simpl; [by right|].
  intros [->|Hin]; [by left | right; by apply IH].
Qed.

Lemma remove_client_n_ip ws cs c ip :
  find_client ws cs = Some c ->
  n_ip ip (map clientIP cs)
  = ((if bool_decide (clientIP c = Some ip) then 1 else 0)
     + n_ip ip (map clientIP (remove_client ws cs)))%nat.
Proof.
  induction cs as [|c' cs IH]; simpl; [done|].
  destruct (Nat.eqb _ _).
  - by intros [= ->].
  - intros Hf. simpl. rewrite (IH Hf). lia.
Qed.

Lemma remove_client_n_some ws cs c :
  find_client ws cs = Some c ->
  n_some (map clientIP cs)
  = ((match clientIP c with Some _ => 1 | None => 0 end)
     + n_some (map clientIP (remove_client ws cs)))%nat.
Proof.
  induction cs as [|c' cs IH]; simpl; [done|].
  destruct (Nat.eqb _ _).
  - by intros [= ->].
  - intros Hf. simpl. rewrite (IH Hf). lia.
Qed.

(** ** The counter invariant *)

Lemma Inv_init : Inv init.
Proof.
  split; simpl; done.
Qed.

(** Handlers that leave the counter map, the identities and the attached
    handlers alone preserve the invariant. *)
Lemma Inv_same s s' :
  Inv s ->
  clientConnections s' = clientConnections s ->
  map clientIP (clients s') = map clientIP (clients s) ->
  map wsid (clients s') = map wsid (clients s) ->
  nextId s' = nextId s ->
  Inv s'.
Proof.
  intros [Hf Hc Hp Hs] Hm Hips Hids Hn.
  split; rewrite ?Hm, ?Hips, ?Hn; try done.
  intros c Hin. apply (in_map wsid) in Hin. rewrite Hids in Hin.
  apply in_map_iff in Hin as (c0 & <- & Hin0). by apply Hf.
Qed.

Lemma set_readyState_ip r c : clientIP (set_readyState r c) = clientIP c.
Proof. done. Qed.

Lemma set_isAlive_ip b c : clientIP (set_isAlive b c) = clientIP c.
Proof. done. Qed.

Lemma Inv_ws_close ws code reason s : Inv s -> Inv (ws_close ws code reason s).
Proof.
  intros HI. apply (Inv_same s); simpl; try done.
  - by apply update_client_ips.
  - by apply update_client_ids.
Qed.

Lemma Inv_emit es s : Inv s -> Inv (emit es s).
Proof. intros HI. by apply (Inv_same s). Qed.

Lemma Inv_startHeartbeat s : Inv s -> Inv (startHeartbeat s).
Proof. intros HI. by apply (Inv_same s). Qed.

Lemma Inv_stop_heartbeat s : Inv s -> Inv (stop_heartbeat s).
Proof. intros HI. by apply (Inv_same s). Qed.

Lemma Inv_open_session s ip :
  Inv s -> Inv (open_session (nextId s) ip (accept_socket s)).
Proof.
  intros [Hf Hc Hp Hs].
  assert (Hcs : update_client (nextId s)
                  (fun c => set_isAlive true (attach_handlers ip c))
                  (clients s ++ [new_client (nextId s)])
                = clients s ++ [set_isAlive true (attach_handlers ip (new_client (nextId s)))]).
  { rewrite update_client_app, update_client_absent.
    - simpl. by rewrite Nat.eqb_refl.
    - intros c Hin Heq. specialize (Hf c Hin). lia. }
  assert (HI : Inv (with_clients
                      (clients s ++ [set_isAlive true (attach_handlers ip (new_client (nextId s)))])
                      (logger Info "Connection opened"
                         (with_counts (trackClientConnection ip (clientConnections s))
                                      (accept_socket s))))).
  { split; simpl.
    - intros c [Hin| [<-|[]]]%in_app_or; [specialize (Hf c Hin); lia | simpl; lia].
    - intros ip'. rewrite map_app, n_ip_app. simpl.
      destruct (decide (ip = ip')) as [->|Hne].
      + rewrite get_or_0_track_eq, Hc, bool_decide_eq_true_2 by done. lia.
      + rewrite get_or_0_track_ne, Hc, bool_decide_eq_false_2 by congruence. lia.
    - by apply positive_track.
    - rewrite map_app, n_some_app, sum_values_track, Hs. simpl. lia. }
  unfold open_session. simpl. rewrite Hcs.
  match goal with |- Inv (if ?b then _ else _) => destruct b end.
  - apply Inv_startHeartbeat. by apply Inv_emit.
  - done.
Qed.

Lemma Inv_accept_socket_rejected s :
  Inv s -> Inv (accept_socket s).
Proof.
  intros [Hf Hc Hp Hs]. split; simpl; try done.
  - intros c [Hin| [<-|[]]]%in_app_or; [specialize (Hf c Hin); lia | simpl; lia].
  - intros ip. rewrite map_app, n_ip_app, Hc. simpl. lia.
  - rewrite map_app, n_some_app, Hs. simpl. lia.
Qed.

Lemma Inv_on_connection s req :
  Inv s -> Inv (on_connection (nextId s) req (accept_socket s)).
Proof.
  intros HI. unfold on_connection.
  destruct (negb (authenticateClient req)).
  { apply Inv_ws_close, Inv_emit. by apply Inv_accept_socket_rejected. }
  destruct (_ >=? MAX_TOTAL_CONNECTIONS).
  { apply Inv_ws_close, Inv_emit. by apply Inv_accept_socket_rejected. }
  destruct (_ >=? MAX_CONNECTIONS_PER_IP).
  { apply Inv_ws_close, Inv_emit. by apply Inv_accept_socket_rejected. }
  by apply Inv_open_session.
Qed.

Lemma Inv_close s ws c :
  Inv s -> find_client ws (clients s) = Some c ->
  Inv (match clientIP c with
       | Some ip => on_close ip (with_clients (remove_client ws (clients s)) s)
       | None => with_clients (remove_client ws (clients s)) s
       end).
Proof.
  intros [Hf Hc Hp Hs] Hfind.
  pose proof (remove_client_n_some ws _ c Hfind) as Hsome.
  assert (Hfresh : forall c', In c' (remove_client ws (clients s)) ->
                              (wsid c' < nextId s)%nat).
  { intros c' Hin. apply Hf. by eapply remove_client_In. }
  destruct (clientIP c) as [ip|] eqn:Hip.
  - assert (Hge : 1 <= get_or_0 (clientConnections s) ip).
    { rewrite Hc, (remove_client_n_ip ws _ c ip Hfind), Hip.
      rewrite bool_decide_eq_true_2 by done. lia. }
    assert (HI : Inv (logger Info "Connection closed"
                        (with_counts (untrackClientConnection ip (clientConnections s))
                           (with_clients (remove_client ws (clients s)) s)))).
    { split; simpl; try done.
      - intros ip'. destruct (decide (ip = ip')) as [<-|Hne].
        + rewrite get_or_0_untrack_eq, Hc by done.
          rewrite (remove_client_n_ip ws _ c ip Hfind), Hip.
          rewrite bool_decide_eq_true_2 by done. lia.
        + rewrite get_or_0_untrack_ne, Hc by done.
          rewrite (remove_client_n_ip ws _ c ip' Hfind), Hip.
          rewrite bool_decide_eq_false_2 by congruence. done.
      - by apply positive_untrack.
      - rewrite sum_values_untrack, Hs, Hsome by done. lia. }
    unfold on_close.
    match goal with |- Inv (if ?b then _ else _) => destruct b end.
    + apply Inv_stop_heartbeat. by apply Inv_emit.
    + done.
  - split; simpl; try done.
    + intros ip. rewrite Hc, (remove_client_n_ip ws _ c ip Hfind), Hip.
      rewrite bool_decide_eq_false_2 by congruence. done.
    + rewrite Hs, Hsome. done.
Qed.

Lemma Inv_step s ev : Inv s -> Inv (step s ev).
Proof.
  intros HI. destruct ev as [req|ws|ws data|ws|ws| |]; simpl.
  - by apply Inv_on_connection.
  - destruct (find_client ws (clients s)) as [c|]; [|done].
    destruct (has_handlers c); [|done].
    apply (Inv_same s); simpl; try done.
    + by apply update_client_ips.
    + by apply update_client_ids.
  - destruct (find_client ws (clients s)) as [c|]; [|done].
    destruct (has_handlers c); [|done].
    unfold on_message. destruct (String.eqb _ _); by apply Inv_emit.
  - apply (Inv_same s); simpl; try done.
    + by apply update_client_ips.
    + by apply update_client_ids.
  - destruct (find_client ws (clients s)) as [c|] eqn:Hfind; [|done].
    by apply Inv_close.
  - destruct (timers s); [done|].
    destruct (heartbeat_tick_globals s) as (Hm & _ & _ & _ & Hn).
    apply (Inv_same s); try done; rewrite heartbeat_tick_clients.
    + apply heartbeat_round_ips.
    + apply heartbeat_round_ids.
  - by apply (Inv_same s).
Qed.

Lemma Inv_run evs : forall s, Inv s -> Inv (run evs s).
Proof.
  induction evs as [|ev evs IH]; intros s HI; [done|].
  simpl. apply IH. by apply Inv_step.
Qed.

(** C1. After every sequence of events, the values of [clientConnections]
    sum to the number of active connections (the sockets registered by
    [trackClientConnection] and not yet released by
    [untrackClientConnection]), and the map holds no entry with value 0. *)
Theorem C1_counts_sum_to_active_and_no_zero_entry :
  forall (evs : list Event),
    sum_values (clientConnections (run evs init))
    = Z.of_nat (length (activeConnections (run evs init)))
    /\ (forall ip, clientConnections (run evs init) !! ip ≠ Some 0).
Proof.
  intros evs. destruct (Inv_run evs init Inv_init) as [_ _ Hp Hs]. split.
  - by rewrite active_length.
  - intros ip Hz. specialize (Hp _ _ Hz). lia.
Qed.

(** ** Admission *)

Lemma on_connection_rejection ws req s :
  on_connection ws req s =
  match rejection req s with
  | Some r => ws_close ws (close_code r) (close_reason r) (logger Warn (warning r) s)
  | None => open_session ws (remoteAddress req) s
  end.
Proof.
  unfold on_connection, rejection.
  destruct (negb (authenticateClient req)); [done|].
  destruct (_ >=? MAX_TOTAL_CONNECTIONS); [done|].
  destruct (_ >=? MAX_CONNECTIONS_PER_IP); done.
Qed.

Lemma open_session_counts ws ip s :
  clientConnections (open_session ws ip s) = trackClientConnection ip (clientConnections s).
Proof.
  unfold open_session.
  match goal with |- context [if ?b then _ else _] => destruct b end; done.
Qed.

Lemma open_session_effects ws ip s :
  exists es, effects (open_session ws ip s) = effects s ++ ELog Info "Connection opened" :: es
             /\ forall e, In e es -> e = ELog Info "Starting heartbeat interval".
Proof.
  unfold open_session.
  match goal with |- context [if ?b then _ else _] => destruct b end; simpl.
  - exists [ELog Info "Starting heartbeat interval"]. split.
    + by rewrite <- app_assoc.
    + intros e [<-|[]]. done.
  - exists []. split; [done|]. intros e [].
Qed.

(** C2 (amended). A rejected admission attempt is closed with the numeric
    code and the reason string of the check that failed; the code of a
    total-capacity rejection (1013) differs from the other two, while an
    Unauthorized and a per-origin-capacity rejection share the code 1008 and
    differ only in the reason string. *)
Theorem C2_close_codes_by_rejection :
  forall (ws : nat) (req : Request) (s : Server) (r : Rejection),
    rejection req s = Some r ->
    effects (on_connection ws req s)
    = effects s ++ [ELog Warn (warning r); EClose ws (close_code r) (close_reason r)]
    /\ (forall r', close_code r = close_code r' <->
                   (r = CapacityExceeded <-> r' = CapacityExceeded))
    /\ (forall r', close_reason r = close_reason r' -> r = r').
Proof.
  intros ws req s r Hr. rewrite on_connection_rejection, Hr. split; [|split].
  - simpl. by rewrite <- app_assoc.
  - intros r'. destruct r, r'; simpl; split; try done;
      try (intros _; split; intros H; discriminate H);
      intros [H1 H2]; try discriminate (H1 eq_refl); discriminate (H2 eq_refl).
  - intros r'. destruct r, r'; simpl; intros H; done.
Qed.

Lemma C2_witness :
  effects (on_connection 0 (anonymous_request "10.0.0.1") (accept_socket init))
  = effects (accept_socket init)
    ++ [ELog Warn (warning Unauthorized);
        EClose 0 (close_code Unauthorized) (close_reason Unauthorized)]
  /\ (forall r', close_code Unauthorized = close_code r' <->
                 (Unauthorized = CapacityExceeded <-> r' = CapacityExceeded))
  /\ (forall r', close_reason Unauthorized = close_reason r' -> Unauthorized = r').
Proof.
  apply (C2_close_codes_by_rejection 0 (anonymous_request "10.0.0.1")
           (accept_socket init) Unauthorized).
  reflexivity.
Defined.

(** C2, as stated, fails: an unauthenticated attempt and an eleventh
    attempt from one address are both closed with code 1008. *)
Lemma C2_counterexample :
  exists code,
    rejection (anonymous_request "10.0.0.1") (accept_socket init) = Some Unauthorized
    /\ last (effects (step init (Connection (anonymous_request "10.0.0.1"))))
       = Some (EClose 0 code "Unauthorized")
    /\ rejection (valid_request (origin 0)) (accept_socket (run (crowd 10) init))
       = Some OriginCapacityExceeded
    /\ last (effects (step (run (crowd 10) init) (Connection (valid_request (origin 0)))))
       = Some (EClose 10 code "Too many connections").
Proof. exists 1008. vm_compute. repeat split; reflexivity. Qed.

(** C3 (amended). When [wss.clients.size] has reached the maximum of 1000,
    an attempt whose credential passes [authenticateClient] is rejected for
    capacity (close 1013), and an attempt whose credential fails it is
    rejected as Unauthorized (close 1008): the credential check runs
    first. *)
Theorem C3_at_capacity :
  forall (ws : nat) (req : Request) (s : Server),
    MAX_TOTAL_CONNECTIONS <= clients_size s ->
    (authenticateClient req = true ->
       rejection req s = Some CapacityExceeded
       /\ on_connection ws req s
          = ws_close ws 1013 "Server overloaded"
              (logger Warn "Server at max capacity" s))
    /\ (authenticateClient req = false ->
       rejection req s = Some Unauthorized
       /\ on_connection ws req s
          = ws_close ws 1008 "Unauthorized"
              (logger Warn "Unauthorized connection attempt" s)).
Proof.
  intros ws req s Hfull. split; intros Hauth.
  - assert (Hr : rejection req s = Some CapacityExceeded).
    { unfold rejection. rewrite Hauth. simpl.
      destruct (Z.geb_spec (clients_size s) MAX_TOTAL_CONNECTIONS); [done|lia]. }
    split; [done|]. by rewrite on_connection_rejection, Hr.
  - assert (Hr : rejection req s = Some Unauthorized).
    { unfold rejection. by rewrite Hauth. }
    split; [done|]. by rewrite on_connection_rejection, Hr.
Qed.


Lemma C3_witness :
  (rejection (valid_request (origin 0)) (accept_socket (run (crowd 999) init))
   = Some CapacityExceeded
   /\ on_connection 999 (valid_request (origin 0)) (accept_socket (run (crowd 999) init))
      = ws_close 999 1013 "Server overloaded"
          (logger Warn "Server at max capacity" (accept_socket (run (crowd 999) init))))
  /\ (rejection (anonymous_request (origin 0)) (accept_socket (run (crowd 999) init))
      = Some Unauthorized
      /\ on_connection 999 (anonymous_request (origin 0))
           (accept_socket (run (crowd 999) init))
         = ws_close 999 1008 "Unauthorized"
             (logger Warn "Unauthorized connection attempt"
                (accept_socket (run (crowd 999) init)))).
Proof.
  assert (Hfull : MAX_TOTAL_CONNECTIONS <= clients_size (accept_socket (run (crowd 999) init))).
  { vm_compute. discriminate. }
  split.
  - apply (proj1 (C3_at_capacity 999 (valid_request (origin 0)) _ Hfull)). reflexivity.
  - apply (proj2 (C3_at_capacity 999 (anonymous_request (origin 0)) _ Hfull)). reflexivity.
Defined.

(** C3, as stated, fails: with 999 accepted connections the handler of the
    next attempt reads [wss.clients.size = 1000]; an attempt without a
    valid credential is then rejected as Unauthorized (1008), not for
    capacity. *)
Lemma C3_counterexample :
  length (activeConnections (run (crowd 999) init)) = 999%nat
  /\ clients_size (accept_socket (run (crowd 999) init)) = MAX_TOTAL_CONNECTIONS
  /\ rejection (anonymous_request (origin 0)) (accept_socket (run (crowd 999) init))
     ≠ Some CapacityExceeded
  /\ last (effects (step (run (crowd 999) init)
                         (Connection (anonymous_request (origin 0)))))
     = Some (EClose 999 1008 "Unauthorized").
Proof.
  split; [by vm_compute|]. split; [by vm_compute|]. split.
  - unfold rejection. simpl. discriminate.
  - by vm_compute.
Qed.



(** On every reachable state the count stored for an address is the number
    of accepted sockets from that address. *)
Lemma counts_are_connections evs ip :
  get_or_0 (clientConnections (run evs init)) ip
  = Z.of_nat (n_ip ip (map clientIP (clients (run evs init)))).
Proof. apply (inv_count _ (Inv_run evs init Inv_init)). Qed.

(** ** Inbound frames *)

Lemma find_update_client ws f cs :
  (forall c, wsid (f c) = wsid c) ->
  find_client ws (update_client ws f cs) = f <$> find_client ws cs.
Proof.
  intros Hf. unfold update_client. induction cs as [|c cs IH]; simpl; [done|].
  destruct (Nat.eqb_spec (wsid c) ws) as [Heq|Hne].
  - rewrite Hf. destruct (Nat.eqb_spec (wsid c) ws); done.
  - destruct (Nat.eqb_spec (wsid c) ws); done.
Qed.

(** C4 (amended). On a socket with the script's handlers, a text message
    equal to ["pong"] only writes a debug log line: the sockets, and so the
    [isAlive] flag, are unchanged and [broadcast] is not called; every
    other text payload is handed to [broadcast(ws, data, false)].  The flag
    is set to [true] by the ['pong'] control-frame handler. *)
Theorem C4_text_pong_suppressed :
  forall (ws : nat) (s : Server) (c : Client),
    find_client ws (clients s) = Some c ->
    has_handlers c = true ->
    step s (Message ws "pong") = logger Debug "Heartbeat pong received" s
    /\ clients (step s (Message ws "pong")) = clients s
    /\ (forall w, deliveries w (effects (step s (Message ws "pong")))
                  = deliveries w (effects s))
    /\ (forall data, data ≠ "pong" ->
          step s (Message ws data) = broadcast ws data false s)
    /\ isAlive <$> find_client ws (clients (step s (Pong ws))) = Some (Some true).
Proof.
  intros ws s c Hfind Hh. simpl. rewrite Hfind, Hh.
  split; [done|]. split; [done|]. split; [|split].
  - intros w. simpl. generalize (effects s). intros es.
    induction es as [|e es IH]; simpl; [done|].
    destruct e; try done. destruct (Nat.eqb _ _); by rewrite ?IH.
  - intros data Hne. unfold on_message.
    destruct (String.eqb_spec data "pong"); done.
  - simpl. rewrite find_update_client, Hfind by done. done.
Qed.

Lemma C4_witness :
  step (run [Connection (valid_request (origin 0))] init) (Message 0 "pong")
  = logger Debug "Heartbeat pong received"
      (run [Connection (valid_request (origin 0))] init)
  /\ clients (step (run [Connection (valid_request (origin 0))] init) (Message 0 "pong"))
     = clients (run [Connection (valid_request (origin 0))] init)
  /\ (forall w,
        deliveries w (effects (step (run [Connection (valid_request (origin 0))] init)
                                    (Message 0 "pong")))
        = deliveries w (effects (run [Connection (valid_request (origin 0))] init)))
  /\ (forall data, data ≠ "pong" ->
        step (run [Connection (valid_request (origin 0))] init) (Message 0 data)
        = broadcast 0 data false (run [Connection (valid_request (origin 0))] init))
  /\ isAlive <$> find_client 0
       (clients (step (run [Connection (valid_request (origin 0))] init) (Pong 0)))
     = Some (Some true).
Proof.
  eapply (C4_text_pong_suppressed 0 (run [Connection (valid_request (origin 0))] init)).
  - reflexivity.
  - reflexivity.
Defined.

(** C4, as stated, fails: after a heartbeat round has cleared the flag of
    an Open socket, a text message ["pong"] from it leaves the flag
    [false]. *)
Lemma C4_counterexample :
  find_client 0 (clients (run [Connection (valid_request (origin 0)); Tick] init))
  = Some {| wsid := 0; readyState := OPEN; isAlive := Some false;
            clientIP := Some (origin 0) |}
  /\ isAlive <$> find_client 0
       (clients (run [Connection (valid_request (origin 0)); Tick; Message 0 "pong"] init))
     = Some (Some false).
Proof. split; by vm_compute. Qed.

(** ** Broadcast *)

Lemma deliveries_app ws es1 es2 :
  deliveries ws (es1 ++ es2) = deliveries ws es1 ++ deliveries ws es2.
Proof.
  induction es1 as [|e es1 IH]; simpl; [done|].
  destruct e; try done. destruct (Nat.eqb _ _); simpl; by rewrite IH.
Qed.

Lemma deliveries_visit ws A p c :
  deliveries ws (broadcast_visit A p false c)
  = if Nat.eqb (wsid c) ws && (negb (Nat.eqb (wsid c) A) && is_open (readyState c))
    then [p] else [].
Proof.
  unfold broadcast_visit.
  destruct (negb (Nat.eqb (wsid c) A) && is_open (readyState c)); simpl.
  - destruct (Nat.eqb _ _); done.
  - by rewrite andb_false_r.
Qed.

Lemma deliveries_absent ws A p cs :
  ~ In ws (map wsid cs) -> deliveries ws (broadcast_sends A p false cs) = [].
Proof.
  unfold broadcast_sends.
  induction cs as [|c cs IH]; cbn [forEach_effects map In]; [done|].
  intros Hnin. rewrite deliveries_app, deliveries_visit, IH by tauto.
  destruct (Nat.eqb_spec (wsid c) ws); [tauto|done].
Qed.

Lemma deliveries_present A p cs c :
  NoDup (map wsid cs) -> In c cs ->
  deliveries (wsid c) (broadcast_sends A p false cs)
  = if negb (Nat.eqb (wsid c) A) && is_open (readyState c) then [p] else [].
Proof.
  unfold broadcast_sends.
  induction cs as [|c0 cs IH]; cbn [forEach_effects map In]; [done|].
  intros [Hnin Hnd]%NoDup_cons. rewrite list_elem_of_In in Hnin.
  rewrite deliveries_app, deliveries_visit. intros [->|Hin].
  - rewrite Nat.eqb_refl. simpl.
    fold (broadcast_sends A p false cs). rewrite deliveries_absent by done.
    by rewrite app_nil_r.
  - rewrite IH by done.
    destruct (Nat.eqb_spec (wsid c0) (wsid c)) as [Heq|Hne]; [|done].
    exfalso. apply Hnin. rewrite Heq. by apply in_map.
Qed.

Lemma sends_only cs A p b e :
  In e (broadcast_sends A p b cs) -> exists c, In c cs /\ e = ESend (wsid c) p.
Proof.
  unfold broadcast_sends.
  induction cs as [|c cs IH]; cbn [forEach_effects In]; [done|].
  intros [Hin|Hin]%in_app_or.
  - exists c. split; [by left|]. unfold broadcast_visit in Hin.
    destruct b; [destruct (is_open _)| destruct (_ && _)];
      simpl in Hin; try done; by destruct Hin as [<-|[]].
  - destruct (IH Hin) as (c' & Hc' & ->). exists c'. split; [by right|done].
Qed.

(** C5. [broadcast(A, p, false)] only calls [send] with [p] on sockets of
    [wss.clients]; each socket that is OPEN and is not [A] receives [p]
    exactly once, and [A] itself and every socket that is not OPEN receive
    nothing, wherever they stand in the iteration order. *)
Theorem C5_broadcast_exclude_self :
  forall (A : nat) (p : string) (s : Server),
    NoDup (map wsid (clients s)) ->
    exists sends,
      effects (broadcast A p false s) = effects s ++ sends
      /\ clients (broadcast A p false s) = clients s
      /\ (forall e, In e sends -> exists c, In c (clients s) /\ e = ESend (wsid c) p)
      /\ (forall c, In c (clients s) ->
            deliveries (wsid c) sends
            = if negb (Nat.eqb (wsid c) A) && is_open (readyState c) then [p] else [])
      /\ (forall c, In c (clients s) -> wsid c ≠ A -> readyState c = OPEN ->
            deliveries (wsid c) sends = [p])
      /\ deliveries A sends = []
      /\ (forall c, In c (clients s) -> readyState c ≠ OPEN ->
            deliveries (wsid c) sends = []).
Proof.
  intros A p s Hnd. exists (broadcast_sends A p false (clients s)).
  split; [done|]. split; [done|]. split; [apply sends_only|].
  split; [intros c Hin; by apply deliveries_present|]. split; [|split].
  - intros c Hin Hne Hopen. rewrite deliveries_present by done.
    rewrite Hopen. destruct (Nat.eqb_spec (wsid c) A); done.
  - destruct (in_dec Nat.eq_dec A (map wsid (clients s))) as [Hin|Hnin].
    + apply in_map_iff in Hin as (c & <- & Hin).
      rewrite deliveries_present by done. by rewrite Nat.eqb_refl.
    + by apply deliveries_absent.
  - intros c Hin Hno. rewrite deliveries_present by done.
    destruct (readyState c); try done; by rewrite andb_false_r.
Qed.

Lemma C5_witness :
  exists sends,
    effects (broadcast 0 "hello" false room) = effects room ++ sends
    /\ clients (broadcast 0 "hello" false room) = clients room
    /\ (forall e, In e sends -> exists c, In c (clients room) /\ e = ESend (wsid c) "hello")
    /\ (forall c, In c (clients room) ->
          deliveries (wsid c) sends
          = if negb (Nat.eqb (wsid c) 0) && is_open (readyState c) then ["hello"] else [])
    /\ (forall c, In c (clients room) -> wsid c ≠ 0%nat -> readyState c = OPEN ->
          deliveries (wsid c) sends = ["hello"])
    /\ deliveries 0 sends = []
    /\ (forall c, In c (clients room) -> readyState c ≠ OPEN ->
          deliveries (wsid c) sends = []).
Proof.
  apply (C5_broadcast_exclude_self 0 "hello" room).
  apply (bool_decide_unpack _). by vm_compute.
Defined.

(** The scenario of the broadcast property: A = 0 sends, B, C, D = 1, 2, 3
    are OPEN and E = 4 is CLOSING. *)
Example broadcast_room :
  effects (broadcast 0 "hello" false room)
  = effects room ++ [ESend 1 "hello"; ESend 2 "hello"; ESend 3 "hello"].
Proof. by vm_compute. Qed.

(** ** Heartbeat rounds *)

Lemma in_forEach_effects (f : Client -> list Effect) cs e :
  In e (forEach_effects f cs) <-> exists c, In c cs /\ In e (f c).
Proof.
  induction cs as [|c cs IH]; simpl.
  - split; [done|]. by intros (c & [] & _).
  - rewrite in_app_iff, IH. split.
    + intros [Hin|(c' & Hc' & Hin)]; [exists c | exists c']; tauto.
    + intros (c' & [->|Hc'] & Hin); [by left | right; by exists c'].
Qed.

Lemma visit_terminates c w :
  In (ETerminate w) (snd (heartbeat_visit c)) <-> wsid c = w /\ isAlive c = Some false.
Proof.
  unfold heartbeat_visit. destruct (isAlive c) as [[]|]; simpl;
    try (destruct (is_open _); simpl); split; try tauto;
    try (intros [Hf|[]]; discriminate Hf); try (intros [_ Hf]; discriminate Hf).
  - intros [Hf|[Heq|[]]]; [discriminate Hf|]. injection Heq as ->. done.
  - intros [-> _]. right. by left.
Qed.

Lemma visit_pings c w :
  In (EPing w) (snd (heartbeat_visit c))
  <-> wsid c = w /\ isAlive c ≠ Some false /\ readyState c = OPEN.
Proof.
  unfold heartbeat_visit. destruct (isAlive c) as [[]|]; simpl.
  - destruct (readyState c); simpl; split; try tauto;
      try (intros (_ & _ & Hf); discriminate Hf).
    + intros [Heq|[]]. injection Heq as ->. done.
    + intros (-> & _). by left.
  - split; [intros [Hf|[Hf|[]]]; discriminate Hf | intros (_ & Hf & _); done].
  - destruct (readyState c); simpl; split; try tauto;
      try (intros (_ & _ & Hf); discriminate Hf).
    + intros [Heq|[]]. injection Heq as ->. done.
    + intros (-> & _). by left.
Qed.

Lemma visit_flag c : isAlive (fst (heartbeat_visit c)) = Some false.
Proof.
  unfold heartbeat_visit. destruct (isAlive c) as [[]|] eqn:Ha; simpl; try done;
    destruct (is_open _); done.
Qed.

Lemma visit_alive c :
  isAlive c ≠ Some false -> fst (heartbeat_visit c) = set_isAlive false c.
Proof.
  unfold heartbeat_visit. destruct (isAlive c) as [[]|]; simpl; try done;
    destruct (is_open _); done.
Qed.

Lemma tick_terminates cs w :
  In (ETerminate w) (snd (heartbeat_round cs))
  <-> exists c, In c cs /\ wsid c = w /\ isAlive c = Some false.
Proof.
  rewrite heartbeat_round_effects, in_forEach_effects.
  split; intros (c & Hin & H); exists c; split; try done; by apply visit_terminates.
Qed.

Lemma tick_pings cs w :
  In (EPing w) (snd (heartbeat_round cs))
  <-> exists c, In c cs /\ wsid c = w /\ isAlive c ≠ Some false /\ readyState c = OPEN.
Proof.
  rewrite heartbeat_round_effects, in_forEach_effects.
  split; intros (c & Hin & H); exists c; split; try done; by apply visit_pings.
Qed.

Lemma tick_flags cs c : In c (fst (heartbeat_round cs)) -> isAlive c = Some false.
Proof.
  rewrite heartbeat_round_clients. intros (c0 & <- & _)%in_map_iff. apply visit_flag.
Qed.

Lemma NoDup_ids_eq cs c c' :
  NoDup (map wsid cs) -> In c cs -> In c' cs -> wsid c = wsid c' -> c = c'.
Proof.
  induction cs as [|c0 cs IH]; simpl; [done|].
  intros [Hnin Hnd]%NoDup_cons. rewrite list_elem_of_In in Hnin.
  intros [->|Hin] [->|Hin'] Heq; try done.
  - exfalso. apply Hnin. rewrite Heq. by apply in_map.
  - exfalso. apply Hnin. rewrite <- Heq. by apply in_map.
  - by apply IH.
Qed.

Lemma find_client_present cs c :
  NoDup (map wsid cs) -> In c cs -> find_client (wsid c) cs = Some c.
Proof.
  induction cs as [|c0 cs IH]; simpl; [done|].
  intros [Hnin Hnd]%NoDup_cons. rewrite list_elem_of_In in Hnin.
  intros [->|Hin]; [by rewrite Nat.eqb_refl|].
  destruct (Nat.eqb_spec (wsid c0) (wsid c)) as [Heq|Hne]; [|by apply IH].
  exfalso. apply Hnin. rewrite Heq. by apply in_map.
Qed.

(** What one heartbeat round does to a socket of [wss.clients]. *)
Lemma heartbeat_round_socket s c :
  NoDup (map wsid (clients s)) -> In c (clients s) ->
  effects (heartbeat_tick s) = effects s ++ tick_effects s
  /\ (isAlive c = Some false ->
        In (ETerminate (wsid c)) (tick_effects s)
        /\ ~ In (EPing (wsid c)) (tick_effects s))
  /\ (isAlive c ≠ Some false ->
        find_client (wsid c) (clients (heartbeat_tick s)) = Some (set_isAlive false c)
        /\ ~ In (ETerminate (wsid c)) (tick_effects s)
        /\ (In (EPing (wsid c)) (tick_effects s) <-> readyState c = OPEN)).
Proof.
  intros Hnd Hin. unfold tick_effects. split; [apply heartbeat_tick_effects|].
  split.
  - intros Hdead. split.
    + apply tick_terminates. by exists c.
    + intros (c' & Hin' & Heq & Hal & _)%tick_pings.
      by rewrite (NoDup_ids_eq _ _ _ Hnd Hin' Hin Heq) in Hal.
  - intros Halive. split; [|split].
    + rewrite heartbeat_tick_clients.
      assert (Hin' : In (set_isAlive false c) (fst (heartbeat_round (clients s)))).
      { rewrite heartbeat_round_clients, <- (visit_alive c Halive).
        by apply (in_map (fun c => fst (heartbeat_visit c))). }
      change (wsid c) with (wsid (set_isAlive false c)).
      apply find_client_present; [|done]. by rewrite heartbeat_round_ids.
    + intros (c' & Hin' & Heq & Hal)%tick_terminates.
      by rewrite (NoDup_ids_eq _ _ _ Hnd Hin' Hin Heq) in Hal.
    + rewrite tick_pings. split.
      * intros (c' & Hin' & Heq & _ & Hopen).
        by rewrite (NoDup_ids_eq _ _ _ Hnd Hin' Hin Heq) in Hopen.
      * intros Hopen. by exists c.
Qed.

(** ** Heartbeat across events *)

Lemma in_update_client w f cs c :
  In c (update_client w f cs) ->
  (In c cs /\ wsid c ≠ w) \/ exists c0, In c0 cs /\ wsid c0 = w /\ c = f c0.
Proof.
  unfold update_client. intros (c0 & Hc & Hin)%in_map_iff.
  destruct (Nat.eqb_spec (wsid c0) w) as [Heq|Hne].
  - right. by exists c0.
  - left. by subst.
Qed.

Lemma all_ws_update_other ws R w f cs :
  w ≠ ws -> (forall c, wsid (f c) = wsid c) ->
  all_ws ws R cs -> all_ws ws R (update_client w f cs).
Proof.
  intros Hne Hid Hall c [[Hin _]|(c0 & Hin & Hw & ->)]%in_update_client Hc.
  - by apply Hall.
  - rewrite Hid in Hc. congruence.
Qed.

Lemma all_ws_update_keep ws R w f cs :
  (forall c, wsid (f c) = wsid c) -> (forall c, R c -> R (f c)) ->
  all_ws ws R cs -> all_ws ws R (update_client w f cs).
Proof.
  intros Hid HR Hall c [[Hin _]|(c0 & Hin & Hw & ->)]%in_update_client Hc.
  - by apply Hall.
  - rewrite Hid in Hc. apply HR. by apply Hall.
Qed.

Lemma all_ws_update_set ws (R : Client -> Prop) f cs :
  (forall c, R (f c)) -> all_ws ws R (update_client ws f cs).
Proof.
  intros HR c [[_ Hne]|(c0 & _ & _ & ->)]%in_update_client Hc; [done|]. apply HR.
Qed.

Lemma all_ws_fresh ws R cs n :
  (ws < n)%nat -> all_ws ws R cs -> all_ws ws R (cs ++ [new_client n]).
Proof.
  intros Hlt Hall c [Hin|[<-|[]]]%in_app_or Hc; [by apply Hall|].
  simpl in Hc. lia.
Qed.

Lemma all_ws_remove ws R w cs :
  all_ws ws R cs -> all_ws ws R (remove_client w cs).
Proof. intros Hall c Hin. apply Hall. by eapply remove_client_In. Qed.

Lemma all_ws_round ws R cs :
  (forall c, R c -> R (fst (heartbeat_visit c))) ->
  all_ws ws R cs -> all_ws ws R (fst (heartbeat_round cs)).
Proof.
  intros HR Hall c. rewrite heartbeat_round_clients.
  intros (c0 & <- & Hin)%in_map_iff Hc. rewrite heartbeat_visit_id in Hc.
  apply HR. by apply Hall.
Qed.

Lemma find_client_None ws R cs : find_client ws cs = None -> all_ws ws R cs.
Proof.
  induction cs as [|c cs IH]; simpl; [by intros _ c []|].
  destruct (Nat.eqb_spec (wsid c) ws) as [Heq|Hne]; [done|].
  intros Hnone c' [<-|Hin] Hc'; [done|]. by apply IH.
Qed.

Lemma on_connection_shape w req s :
  exists f, (forall c, wsid (f c) = wsid c)
    /\ clients (on_connection w req s) = update_client w f (clients s)
    /\ nextId (on_connection w req s) = nextId s
    /\ (timers s ≠ [] -> timers (on_connection w req s) ≠ []).
Proof.
  rewrite on_connection_rejection. destruct (rejection req s) as [r|].
  - by exists (set_readyState CLOSING).
  - exists (fun c => set_isAlive true (attach_handlers (remoteAddress req) c)).
    split; [done|]. unfold open_session.
    match goal with |- context [if ?b then _ else _] => destruct b end; simpl;
      repeat split; try done.
    intros _ [_ Hnil]%app_eq_nil. discriminate Hnil.
Qed.

Lemma on_close_shape ip s :
  clients (on_close ip s) = clients s
  /\ nextId (on_close ip s) = nextId s
  /\ (clients s ≠ [] -> timers (on_close ip s) = timers s).
Proof.
  unfold on_close.
  match goal with |- context [if ?b then _ else _] => destruct b eqn:Hb end; simpl;
    repeat split; try done.
  intros Hne. apply andb_true_iff in Hb as [Hz _]. exfalso.
  unfold clients_size in Hz. simpl in Hz. destruct (clients s); [done|].
  simpl in Hz. discriminate Hz.
Qed.

Lemma on_message_shape w data s :
  clients (on_message w data s) = clients s
  /\ nextId (on_message w data s) = nextId s
  /\ timers (on_message w data s) = timers s.
Proof. unfold on_message. destruct (String.eqb _ _); done. Qed.

Lemma step_nextId s ev : (nextId s <= nextId (step s ev))%nat.
Proof.
  destruct ev as [req|w|w data|w|w| |]; simpl; try done.
  - destruct (on_connection_shape (nextId s) req (accept_socket s)) as (f & _ & _ & -> & _).
    simpl. lia.
  - destruct (find_client w (clients s)) as [c|]; [|done]. by destruct (has_handlers c).
  - destruct (find_client w (clients s)) as [c|]; [|done].
    destruct (has_handlers c); [|done].
    by destruct (on_message_shape w data s) as (_ & -> & _).
  - destruct (find_client w (clients s)) as [c|]; [|done].
    destruct (clientIP c) as [ip|]; [|done].
    by destruct (on_close_shape ip (with_clients (remove_client w (clients s)) s))
      as (_ & -> & _).
  - destruct (timers s); [done|].
    by destruct (heartbeat_tick_globals s) as (_ & _ & _ & _ & ->).
Qed.

(** A property of the sockets named [ws] survives an event, provided the
    field updates the event can make to them keep it. *)
Lemma step_keeps ws (R : Client -> Prop) s ev :
  (forall c r, R c -> R (set_readyState r c)) ->
  (ev = Pong ws -> forall c, R c -> R (set_isAlive true c)) ->
  (ev = Tick -> forall c, R c -> R (fst (heartbeat_visit c))) ->
  (ws < nextId s)%nat ->
  all_ws ws R (clients s) -> all_ws ws R (clients (step s ev)).
Proof.
  intros Hrs Hpong Htick Hlt Hall.
  destruct ev as [req|w|w data|w|w| |]; simpl; try done.
  - destruct (on_connection_shape (nextId s) req (accept_socket s)) as (f & Hf & -> & _).
    apply all_ws_update_other; [lia|done|]. by apply all_ws_fresh.
  - destruct (find_client w (clients s)) as [c|]; [|done].
    destruct (has_handlers c); [|done]. simpl.
    destruct (decide (w = ws)) as [->|Hne].
    + apply all_ws_update_keep; [done| |done]. by apply Hpong.
    + by apply all_ws_update_other.
  - destruct (find_client w (clients s)) as [c|]; [|done].
    destruct (has_handlers c); [|done].
    by destruct (on_message_shape w data s) as (-> & _).
  - apply all_ws_update_keep; [done| |done]. intros c. apply Hrs.
  - destruct (find_client w (clients s)) as [c|]; [|done].
    destruct (clientIP c) as [ip|].
    + destruct (on_close_shape ip (with_clients (remove_client w (clients s)) s))
        as (-> & _).
      simpl. by apply all_ws_remove.
    + simpl. by apply all_ws_remove.
  - destruct (timers s); [done|]. rewrite heartbeat_tick_clients.
    apply all_ws_round; [|done]. by apply Htick.
Qed.

Lemma remove_client_other w cs ws :
  ws ≠ w -> In ws (map wsid cs) -> In ws (map wsid (remove_client w cs)).
Proof.
  intros Hne. induction cs as [|c cs IH]; simpl; [done|].
  destruct (Nat.eqb_spec (wsid c) w) as [Heq|Hnw].
  - intros [Hc|Hin]; [congruence|done].
  - simpl. intros [Hc|Hin]; [by left | right; by apply IH].
Qed.

(** While no pong of [ws] arrives, [ws] is not closed and the server is
    not shut down, [ws] stays in the set and the timer stays alive. *)
Lemma silent_step ws s ev :
  ev ≠ Pong ws -> ev ≠ Close ws -> ev ≠ WssClose ->
  In ws (map wsid (clients s)) -> timers s ≠ [] ->
  In ws (map wsid (clients (step s ev))) /\ timers (step s ev) ≠ [].
Proof.
  intros Hpong Hclose Hshut Hin Ht.
  destruct ev as [req|w|w data|w|w| |]; simpl; try done.
  - destruct (on_connection_shape (nextId s) req (accept_socket s))
      as (f & Hf & -> & _ & Htimers).
    split; [|by apply Htimers].
    rewrite update_client_ids by done. simpl. rewrite map_app. apply in_or_app. by left.
  - destruct (find_client w (clients s)) as [c|]; [|done].
    destruct (has_handlers c); [|done]. simpl.
    by rewrite update_client_ids.
  - destruct (find_client w (clients s)) as [c|]; [|done].
    destruct (has_handlers c); [|done].
    by destruct (on_message_shape w data s) as (-> & _ & ->).
  - by rewrite update_client_ids.
  - destruct (find_client w (clients s)) as [c|]; [|done].
    assert (Hw : ws ≠ w) by congruence.
    pose proof (remove_client_other w _ ws Hw Hin) as Hin'.
    destruct (clientIP c) as [ip|]; [|done].
    destruct (on_close_shape ip (with_clients (remove_client w (clients s)) s))
      as (-> & _ & Hkeep).
    rewrite Hkeep; [done|]. simpl. intros Hnil. by rewrite Hnil in Hin'.
  - destruct (timers s) as [|t ts] eqn:Hts; [done|].
    destruct (heartbeat_tick_globals s) as (_ & _ & -> & _).
    rewrite heartbeat_tick_clients, heartbeat_round_ids, Hts. done.
Qed.

Lemma silent_run ws mid : forall s,
  silent ws mid ->
  (ws < nextId s)%nat ->
  In ws (map wsid (clients s)) -> timers s ≠ [] ->
  all_ws ws (fun c => isAlive c = Some false) (clients s) ->
  In ws (map wsid (clients (run mid s))) /\ timers (run mid s) ≠ []
  /\ all_ws ws (fun c => isAlive c = Some false) (clients (run mid s)).
Proof.
  induction mid as [|ev mid IH]; intros s Hsilent Hlt Hin Ht Hall; [done|].
  apply Forall_cons in Hsilent as [(Hpong & Hclose & Hshut) Hsilent].
  destruct (silent_step ws s ev Hpong Hclose Hshut Hin Ht) as [Hin' Ht'].
  simpl. apply IH; try done.
  - pose proof (step_nextId s ev). lia.
  - apply step_keeps; try done.
    intros _ c _. apply visit_flag.
Qed.

(** A socket left without a pong over two consecutive heartbeat rounds is
    terminated at the second one. *)
Lemma two_silent_rounds s mid ws :
  timers s ≠ [] -> In ws (map wsid (clients s)) -> (ws < nextId s)%nat ->
  silent ws mid ->
  In (ETerminate ws) (effects (run (Tick :: mid ++ [Tick]) s)).
Proof.
  intros Ht Hin Hlt Hsilent.
  assert (Hfirst : step s Tick = heartbeat_tick s).
  { simpl. by destruct (timers s). }
  assert (Hrun : run (Tick :: mid ++ [Tick]) s = step (run mid (step s Tick)) Tick).
  { unfold run. simpl. by rewrite fold_left_app. }
  rewrite Hrun.
  destruct (silent_run ws mid (step s Tick)) as (Hin' & Ht' & Hall); try done.
  - pose proof (step_nextId s Tick). lia.
  - rewrite Hfirst, heartbeat_tick_clients, heartbeat_round_ids. done.
  - rewrite Hfirst. by destruct (heartbeat_tick_globals s) as (_ & _ & -> & _).
  - rewrite Hfirst, heartbeat_tick_clients. intros c Hc _. by eapply tick_flags.
  - remember (run mid (step s Tick)) as s1 eqn:Hs1. clear Hs1 Hrun.
    apply in_map_iff in Hin' as (c & Hc & Hcin).
    assert (Hlast : step s1 Tick = heartbeat_tick s1).
    { simpl. by destruct (timers s1). }
    rewrite Hlast, heartbeat_tick_effects. apply in_or_app. right.
    apply tick_terminates. exists c. repeat split; try done. by apply Hall.
Qed.

(** [terminate()] is only called by a heartbeat round, on a socket whose
    flag is [false]. *)
Lemma terminate_origin s ev w :
  In (ETerminate w) (effects (step s ev)) ->
  In (ETerminate w) (effects s)
  \/ (ev = Tick /\ exists c, In c (clients s) /\ wsid c = w /\ isAlive c = Some false).
Proof.
  destruct ev as [req|w'|w' data|w'|w'| |]; simpl; try tauto.
  - rewrite on_connection_rejection.
    destruct (rejection req (accept_socket s)) as [r|].
    + simpl. rewrite !in_app_iff. simpl. intros [[H|[H|[]]]|[H|[]]]; try discriminate H.
      by left.
    + destruct (open_session_effects (nextId s) (remoteAddress req) (accept_socket s))
        as (es & -> & Hes).
      simpl. rewrite in_app_iff. simpl. intros [H|[H|H]]; try discriminate H; [by left|].
      specialize (Hes _ H). discriminate Hes.
  - destruct (find_client w' (clients s)) as [c|]; [|tauto].
    destruct (has_handlers c); tauto.
  - destruct (find_client w' (clients s)) as [c|]; [|tauto].
    destruct (has_handlers c); [|tauto].
    unfold on_message. destruct (String.eqb _ _); simpl; rewrite in_app_iff.
    + simpl. intros [H|[H|[]]]; try discriminate H. by left.
    + intros [H|H]; [by left|].
      apply sends_only in H as (c' & _ & H). discriminate H.
  - destruct (find_client w' (clients s)) as [c|]; [|tauto].
    destruct (clientIP c) as [ip|]; [|tauto].
    unfold on_close.
    match goal with |- context [if ?b then _ else _] => destruct b end; simpl;
      rewrite !in_app_iff; simpl.
    + intros [[H|[H|[]]]|[H|[]]]; try discriminate H. by left.
    + intros [H|[H|[]]]; try discriminate H. by left.
  - destruct (timers s); [tauto|]. rewrite heartbeat_tick_effects, in_app_iff.
    intros [H|H]; [by left|]. right. split; [done|]. by apply tick_terminates.
Qed.

Lemma visit_keeps_handlers c :
  has_handlers c = true -> has_handlers (fst (heartbeat_visit c)) = true.
Proof. unfold has_handlers. by rewrite heartbeat_visit_ip. Qed.

Lemma responsive_run ws evs : forall s,
  (ws < nextId s)%nat ->
  all_ws ws (fun c => has_handlers c = true) (clients s) ->
  ~ In (ETerminate ws) (effects s) ->
  pong_between ws evs ->
  (all_ws ws (fun c => isAlive c ≠ Some false) (clients s)
   \/ forall l2 l3, evs = l2 ++ Tick :: l3 -> In (Pong ws) l2) ->
  ~ In (ETerminate ws) (effects (run evs s)).
Proof.
  induction evs as [|ev evs IH]; intros s Hlt Hh Hnot Hbetween Hmode; [done|].
  simpl. apply IH.
  - pose proof (step_nextId s ev). lia.
  - apply step_keeps; try done. intros _ c. apply visit_keeps_handlers.
  - intros [H|(-> & c & Hc & Hw & Hdead)]%terminate_origin; [done|].
    destruct Hmode as [Halive|Hprobed].
    + by apply (Halive c Hc Hw).
    + by apply (Hprobed [] evs).
  - intros l1 l2 l3 ->. by apply (Hbetween (ev :: l1) l2 l3).
  - assert (Hother : ev ≠ Tick -> ev ≠ Pong ws ->
              all_ws ws (fun c => isAlive c ≠ Some false) (clients (step s ev))
              \/ forall l2 l3, evs = l2 ++ Tick :: l3 -> In (Pong ws) l2).
    { intros Htick Hpong. destruct Hmode as [Halive|Hprobed].
      - left. apply step_keeps; done.
      - right. intros l2 l3 ->.
        destruct (Hprobed (ev :: l2) l3 eq_refl) as [Heq|Hin]; [|done].
        by destruct Hpong. }
    destruct ev as [req|w|w data|w|w| |]; try (apply Hother; congruence).
    + destruct (decide (w = ws)) as [->|Hne]; [|apply Hother; congruence].
      left. simpl. destruct (find_client ws (clients s)) as [c|] eqn:Hfind.
      * destruct (find_client_In _ _ _ Hfind) as [Hin Hw].
        rewrite (Hh c Hin Hw). simpl. by apply all_ws_update_set.
      * by apply find_client_None.
    + right. intros l2 l3 ->. by apply (Hbetween [] l2 l3).
Qed.

Lemma pong_between_nil ws : pong_between ws [].
Proof. intros [|e l1] l2 l3 H; discriminate H. Qed.

Lemma answered_nil ws : answered ws [].
Proof. intros [|e l2] l3 H; discriminate H. Qed.

Lemma answered_pong ws evs : answered ws (Pong ws :: evs).
Proof. intros [|e l2] l3 H; [discriminate H|]. injection H as <- _. by left. Qed.

Lemma answered_skip ws ev evs :
  ev ≠ Tick -> answered ws evs -> answered ws (ev :: evs).
Proof.
  intros Hne Hans [|e l2] l3 H; injection H as -> H; [done|].
  right. by apply (Hans l2 l3).
Qed.

Lemma pong_between_tick ws evs :
  answered ws evs -> pong_between ws evs -> pong_between ws (Tick :: evs).
Proof.
  intros Hans Hbetween [|e l1] l2 l3 H; injection H as H.
  - by apply (Hans l2 l3).
  - by apply (Hbetween l1 l2 l3).
Qed.

Lemma pong_between_skip ws ev evs :
  ev ≠ Tick -> pong_between ws evs -> pong_between ws (ev :: evs).
Proof.
  intros Hne Hbetween [|e l1] l2 l3 H; injection H as -> H; [done|].
  by apply (Hbetween l1 l2 l3).
Qed.

Lemma close_deregisters s ws c ip :
  find_client ws (clients s) = Some c -> clientIP c = Some ip ->
  clients (step s (Close ws)) = remove_client ws (clients s)
  /\ clientConnections (step s (Close ws))
     = untrackClientConnection ip (clientConnections s).
Proof.
  intros Hfind Hip. simpl. rewrite Hfind, Hip. unfold on_close.
  match goal with |- context [if ?b then _ else _] => destruct b end; done.
Qed.

(** C6 (amended). In a heartbeat round a socket whose [isAlive] is [false]
    is terminated and gets no ping; any other socket has its flag set to
    [false], is not terminated, and is sent a ping exactly when its
    [readyState] is OPEN.  A socket from which no pong frame arrives over
    two consecutive rounds is terminated at the second; a socket with the
    script's handlers whose pong frame arrives between any two rounds is
    never terminated; the ['close'] event of an accepted socket removes it
    and releases its count. *)
Theorem C6_heartbeat_round_and_eviction :
  (forall (s : Server) (c : Client),
      NoDup (map wsid (clients s)) -> In c (clients s) ->
      effects (heartbeat_tick s) = effects s ++ tick_effects s
      /\ (isAlive c = Some false ->
            In (ETerminate (wsid c)) (tick_effects s)
            /\ ~ In (EPing (wsid c)) (tick_effects s))
      /\ (isAlive c ≠ Some false ->
            find_client (wsid c) (clients (heartbeat_tick s)) = Some (set_isAlive false c)
            /\ ~ In (ETerminate (wsid c)) (tick_effects s)
            /\ (In (EPing (wsid c)) (tick_effects s) <-> readyState c = OPEN)))
  /\ (forall (s : Server) (mid : list Event) (ws : nat),
      timers s ≠ [] -> In ws (map wsid (clients s)) -> (ws < nextId s)%nat ->
      silent ws mid ->
      In (ETerminate ws) (effects (run (Tick :: mid ++ [Tick]) s)))
  /\ (forall (s : Server) (evs : list Event) (ws : nat),
      (ws < nextId s)%nat ->
      all_ws ws (fun c => has_handlers c = true /\ isAlive c ≠ Some false) (clients s) ->
      ~ In (ETerminate ws) (effects s) ->
      pong_between ws evs ->
      ~ In (ETerminate ws) (effects (run evs s)))
  /\ (forall (s : Server) (ws : nat) (c : Client) (ip : string),
      find_client ws (clients s) = Some c -> clientIP c = Some ip ->
      clients (step s (Close ws)) = remove_client ws (clients s)
      /\ clientConnections (step s (Close ws))
         = untrackClientConnection ip (clientConnections s)).
Proof.
  split; [exact heartbeat_round_socket|].
  split; [exact two_silent_rounds|].
  split; [|exact close_deregisters].
  intros s evs ws Hlt Hall Hnot Hbetween.
  apply responsive_run; try done.
  - intros c Hc Hw. by apply (Hall c Hc Hw).
  - left. intros c Hc Hw. by apply (Hall c Hc Hw).
Qed.

Lemma C6_witness :
  (In (ETerminate 0) (tick_effects (step lobby Tick))
   /\ ~ In (EPing 0) (tick_effects (step lobby Tick)))
  /\ (find_client 0 (clients (heartbeat_tick lobby)) = Some (socket0 OPEN false)
      /\ ~ In (ETerminate 0) (tick_effects lobby)
      /\ (In (EPing 0) (tick_effects lobby) <-> OPEN = OPEN))
  /\ In (ETerminate 0) (effects (run (Tick :: [Message 0%nat "pong"] ++ [Tick]) lobby))
  /\ ~ In (ETerminate 0) (effects (run [Tick; Pong 0%nat; Tick] lobby))
  /\ (clients (step lobby (Close 0)) = remove_client 0 (clients lobby)
      /\ clientConnections (step lobby (Close 0))
         = untrackClientConnection (origin 0) (clientConnections lobby)).
Proof.
  assert (Hnd : forall s, clients s = clients lobby \/ clients s = clients (step lobby Tick) ->
                          NoDup (map wsid (clients s))).
  { intros s [-> | ->]; apply (bool_decide_unpack _); by vm_compute. }
  split; [|split; [|split; [|split]]].
  - apply (proj1 (proj2 (proj1 C6_heartbeat_round_and_eviction
                           (step lobby Tick) (socket0 OPEN false)
                           (Hnd _ (or_intror eq_refl))
                           (or_introl eq_refl)))).
    reflexivity.
  - apply (proj2 (proj2 (proj1 C6_heartbeat_round_and_eviction
                           lobby (socket0 OPEN true)
                           (Hnd _ (or_introl eq_refl))
                           (or_introl eq_refl)))).
    discriminate.
  - apply (proj1 (proj2 C6_heartbeat_round_and_eviction) lobby [Message 0%nat "pong"] 0%nat).
    + discriminate.
    + by left.
    + vm_compute. lia.
    + repeat constructor; discriminate.
  - apply (proj1 (proj2 (proj2 C6_heartbeat_round_and_eviction)) lobby
             [Tick; Pong 0%nat; Tick] 0%nat).
    + vm_compute. lia.
    + intros c [<-|[]] _. split; [reflexivity|discriminate].
    + intros [H|[H|[]]]; discriminate H.
    + apply pong_between_tick; [apply answered_pong|].
      apply pong_between_skip; [discriminate|].
      apply pong_between_tick; [apply answered_nil | apply pong_between_nil].
  - apply (proj2 (proj2 (proj2 C6_heartbeat_round_and_eviction)) lobby 0%nat
             (socket0 OPEN true) (origin 0)); reflexivity.
Defined.

(** C6, as stated, fails: an accepted socket that is CLOSING (the peer's
    close frame has arrived) with [isAlive = true] has its flag cleared by
    the round but is sent no ping. *)
Lemma C6_counterexample :
  find_client 0 (clients (step lobby (CloseFrame 0))) = Some (socket0 CLOSING true)
  /\ timers (step lobby (CloseFrame 0)) = [0%nat]
  /\ find_client 0 (clients (step (step lobby (CloseFrame 0)) Tick))
     = Some (socket0 CLOSING false)
  /\ effects (step (step lobby (CloseFrame 0)) Tick) = effects (step lobby (CloseFrame 0))
  /\ ~ In (EPing 0) (effects (step (step lobby (CloseFrame 0)) Tick)).
Proof.
  repeat split; try by vm_compute.
  vm_compute. intros [H|[H|[]]]; discriminate H.
Qed.

(** ** Heartbeat timer *)

Lemma clearInterval_own t : clearInterval (Some t) [t] = [].
Proof. unfold clearInterval. rewrite filter_cons_False; [done|]. by intros H. Qed.

Lemma timer_inv_clear s s' :
  timer_inv s -> timers s' = clearInterval (heartbeatInterval s) (timers s) ->
  timers s' = [].
Proof.
  intros [Hnil|(t & Ht & Hh)] ->.
  - rewrite Hnil. by destruct (heartbeatInterval s).
  - rewrite Ht, Hh. apply clearInterval_own.
Qed.

Lemma timer_inv_same s s' :
  timer_inv s -> timers s' = timers s -> heartbeatInterval s' = heartbeatInterval s ->
  timer_inv s'.
Proof. unfold timer_inv. by intros H -> ->. Qed.

Lemma timer_inv_step s ev : timer_inv s -> timer_inv (step s ev).
Proof.
  intros HT. destruct ev as [req|w|w data|w|w| |]; simpl.
  - rewrite on_connection_rejection.
    destruct (rejection req (accept_socket s)); [by apply (timer_inv_same s)|].
    unfold open_session.
    match goal with |- context [if ?b then _ else _] => destruct b eqn:Hb end;
      [|by apply (timer_inv_same s)].
    apply andb_true_iff in Hb as [_ Hnone]. simpl in Hnone.
    destruct HT as [Hnil|(t & Ht & Hh)].
    + right. exists (nextTimer s). simpl. by rewrite Hnil.
    + rewrite Hh in Hnone. done.
  - destruct (find_client w (clients s)) as [c|]; [|done].
    destruct (has_handlers c); [|done]. by apply (timer_inv_same s).
  - destruct (find_client w (clients s)) as [c|]; [|done].
    destruct (has_handlers c); [|done].
    unfold on_message. destruct (String.eqb _ _); by apply (timer_inv_same s).
  - by apply (timer_inv_same s).
  - destruct (find_client w (clients s)) as [c|]; [|done].
    destruct (clientIP c) as [ip|]; [|by apply (timer_inv_same s)].
    unfold on_close.
    match goal with |- context [if ?b then _ else _] => destruct b end;
      [|by apply (timer_inv_same s)].
    left. by apply (timer_inv_clear s).
  - destruct (timers s) eqn:Hts; [done|].
    destruct (heartbeat_tick_globals s) as (_ & Hh & Ht & _).
    apply (timer_inv_same s); done.
  - left. by apply (timer_inv_clear s).
Qed.

(** At most one heartbeat timer is alive in any reachable state. *)
Lemma heartbeat_at_most_one evs : (length (timers (run evs init)) <= 1)%nat.
Proof.
  assert (HT : timer_inv (run evs init)).
  { generalize init (or_introl eq_refl : timer_inv init).
    induction evs as [|ev evs IH]; intros s Hs; [done|].
    simpl. apply IH. by apply timer_inv_step. }
  destruct HT as [->|(t & -> & _)]; simpl; lia.
Qed.

(** C7 (the code at the failing inputs).  A rejected socket stays in
    [wss.clients] until its ['close'] event, so the size tests miss both
    transitions: an accepted connection that arrives meanwhile gets no
    heartbeat, and a timer outlives the last accepted connection when a
    rejected socket closes after it. *)
Theorem C7_heartbeat_not_tied_to_active_connections :
  (length (activeConnections
             (run [Connection (anonymous_request (origin 0));
                   Connection (valid_request (origin 1))] init)) = 1%nat
   /\ timers (run [Connection (anonymous_request (origin 0));
                   Connection (valid_request (origin 1))] init) = []
   /\ heartbeatInterval (run [Connection (anonymous_request (origin 0));
                              Connection (valid_request (origin 1))] init) = None)
  /\ (clients (run [Connection (valid_request (origin 0));
                    Connection (anonymous_request (origin 1));
                    Close 0%nat; Close 1%nat] init) = []
      /\ timers (run [Connection (valid_request (origin 0));
                      Connection (anonymous_request (origin 1));
                      Close 0%nat; Close 1%nat] init) = [0%nat]).
Proof. repeat split; by vm_compute. Qed.

(** ** The intended heartbeat lifecycle, and distinct identities *)

Lemma remove_client_ids w cs :
  NoDup (map wsid cs) -> NoDup (map wsid (remove_client w cs)).
Proof.
  induction cs as [|c cs IH]; simpl; [done|].
  intros [Hnin Hnd]%NoDup_cons. destruct (Nat.eqb _ _); [done|].
  simpl. apply NoDup_cons. split; [|by apply IH].
  rewrite list_elem_of_In in *. intros (c' & Heq & Hin)%in_map_iff.
  apply Hnin. rewrite <- Heq. apply in_map. by eapply remove_client_In.
Qed.

Lemma distinct_ids_step s ev : distinct_ids s -> distinct_ids (step s ev).
Proof.
  intros [Hnd Hlt]. destruct ev as [req|w|w data|w|w| |]; simpl; try done.
  - destruct (on_connection_shape (nextId s) req (accept_socket s))
      as (f & Hf & Hcs & Hn & _).
    unfold distinct_ids. rewrite Hcs, Hn, update_client_ids by done. simpl.
    rewrite map_app. simpl. split.
    + apply NoDup_app. split; [done|]. split; [|apply NoDup_singleton].
      intros w Hw ->%list_elem_of_singleton.
      rewrite list_elem_of_In in Hw. specialize (Hlt _ Hw). lia.
    + intros w [Hw|[<-|[]]]%in_app_or; [specialize (Hlt _ Hw)|]; lia.
  - destruct (find_client w (clients s)) as [c|]; [|done].
    destruct (has_handlers c); [|done].
    unfold distinct_ids. simpl. by rewrite update_client_ids.
  - destruct (find_client w (clients s)) as [c|]; [|done].
    destruct (has_handlers c); [|done].
    unfold distinct_ids. by destruct (on_message_shape w data s) as (-> & -> & _).
  - unfold distinct_ids. simpl. by rewrite update_client_ids.
  - destruct (find_client w (clients s)) as [c|]; [|done].
    assert (Hrem : distinct_ids (with_clients (remove_client w (clients s)) s)).
    { split; simpl; [by apply remove_client_ids|].
      intros w' (c' & <- & Hin)%in_map_iff. apply Hlt, in_map.
      by eapply remove_client_In. }
    destruct (clientIP c) as [ip|]; [|done].
    unfold distinct_ids.
    by destruct (on_close_shape ip (with_clients (remove_client w (clients s)) s))
      as (-> & -> & _).
  - destruct (timers s); [done|]. unfold distinct_ids.
    destruct (heartbeat_tick_globals s) as (_ & _ & _ & _ & ->).
    by rewrite heartbeat_tick_clients, heartbeat_round_ids.
Qed.

(** In every reachable state the sockets of [wss.clients] have distinct
    identities. *)
Lemma reachable_distinct_ids evs : distinct_ids (run evs init).
Proof.
  assert (H0 : distinct_ids init).
  { split; simpl; [apply NoDup_nil_2 | by intros w []]. }
  revert H0. generalize init.
  induction evs as [|ev evs IH]; intros s Hs; [done|].
  simpl. apply IH. by apply distinct_ids_step.
Qed.

Lemma update_client_nil w f cs : update_client w f cs = [] <-> cs = [].
Proof. unfold update_client. by destruct cs. Qed.

Lemma heartbeat_tied_same s s' :
  heartbeat_tied s ->
  timers s' = timers s -> heartbeatInterval s' = heartbeatInterval s ->
  (clients s' = [] <-> clients s = []) ->
  heartbeat_tied s'.
Proof.
  intros [(Ht & Hh & Hc)|(t & Ht & Hh & Hc)] Ht' Hh' Hc'.
  - left. rewrite Ht', Hh'. tauto.
  - right. exists t. rewrite Ht', Hh'. tauto.
Qed.

Lemma open_session_clients w ip s :
  clients (open_session w ip s)
  = update_client w (fun c => set_isAlive true (attach_handlers ip c)) (clients s).
Proof.
  unfold open_session.
  match goal with |- context [if ?b then _ else _] => destruct b end; done.
Qed.

Lemma open_session_heartbeat w ip s :
  (length (clients s) = 1%nat /\ heartbeatInterval s = None
   /\ timers (open_session w ip s) = timers s ++ [nextTimer s]
   /\ heartbeatInterval (open_session w ip s) = Some (nextTimer s))
  \/ ((length (clients s) ≠ 1%nat \/ is_Some (heartbeatInterval s))
      /\ timers (open_session w ip s) = timers s
      /\ heartbeatInterval (open_session w ip s) = heartbeatInterval s).
Proof.
  unfold open_session.
  match goal with |- context [if ?b then _ else _] => destruct b eqn:Hb end.
  - left. apply andb_true_iff in Hb as [Hsize Hnone].
    apply Z.eqb_eq in Hsize. unfold clients_size in Hsize. simpl in Hsize.
    unfold update_client in Hsize. rewrite length_map in Hsize.
    simpl in Hnone. destruct (heartbeatInterval s) eqn:Hh; [done|].
    repeat split; simpl; rewrite ?Hh; try done. lia.
  - right. apply andb_false_iff in Hb as [Hsize|Hsome].
    + apply Z.eqb_neq in Hsize. unfold clients_size in Hsize. simpl in Hsize.
      unfold update_client in Hsize. rewrite length_map in Hsize.
      repeat split; try done. left. lia.
    + simpl in Hsome. destruct (heartbeatInterval s) eqn:Hh; [|done].
      repeat split; simpl; rewrite ?Hh; try done. right. by eexists.
Qed.

Lemma on_close_heartbeat ip s :
  (clients s = [] /\ is_Some (heartbeatInterval s)
   /\ timers (on_close ip s) = clearInterval (heartbeatInterval s) (timers s)
   /\ heartbeatInterval (on_close ip s) = None)
  \/ ((clients s ≠ [] \/ heartbeatInterval s = None)
      /\ timers (on_close ip s) = timers s
      /\ heartbeatInterval (on_close ip s) = heartbeatInterval s).
Proof.
  unfold on_close.
  match goal with |- context [if ?b then _ else _] => destruct b eqn:Hb end.
  - left. apply andb_true_iff in Hb as [Hsize Hsome].
    apply Z.eqb_eq in Hsize. unfold clients_size in Hsize. simpl in Hsize.
    simpl in Hsome. apply bool_decide_eq_true in Hsome.
    repeat split; try done. destruct (clients s); [done|]. simpl in Hsize. lia.
  - right. apply andb_false_iff in Hb as [Hsize|Hnone].
    + apply Z.eqb_neq in Hsize. unfold clients_size in Hsize. simpl in Hsize.
      repeat split; try done. left. intros Hnil. by rewrite Hnil in Hsize.
    + simpl in Hnone. apply bool_decide_eq_false in Hnone.
      repeat split; try done. right.
      destruct (heartbeatInterval s) eqn:Hh; [|done]. exfalso. apply Hnone. by eexists.
Qed.

Lemma heartbeat_tied_step s ev :
  ev ≠ WssClose -> all_handlers s -> all_handlers (step s ev) ->
  heartbeat_tied s -> heartbeat_tied (step s ev).
Proof.
  intros Hshut Hall Hall' Htied.
  destruct ev as [req|w|w data|w|w| |]; simpl in *; try done.
  - rewrite on_connection_rejection in *.
    destruct (rejection req (accept_socket s)) as [r|].
    { exfalso. simpl in Hall'.
      assert (Hin : In (set_readyState CLOSING (new_client (nextId s)))
                       (update_client (nextId s) (set_readyState CLOSING)
                          (clients s ++ [new_client (nextId s)]))).
      { rewrite update_client_app. apply in_or_app. right. simpl.
        rewrite Nat.eqb_refl. by left. }
      by specialize (Hall' _ Hin). }
    clear Hall'. right.
    assert (Hcs : clients (open_session (nextId s) (remoteAddress req) (accept_socket s))
                  ≠ []).
    { rewrite open_session_clients, update_client_nil. simpl. by destruct (clients s). }
    destruct (open_session_heartbeat (nextId s) (remoteAddress req) (accept_socket s))
      as [(_ & Hnone & Ht' & Hh')|(Hcond & Ht' & Hh')]; simpl in *.
    + destruct Htied as [(Ht & _ & _)|(t & _ & Hh & _)]; [|congruence].
      exists (nextTimer s). rewrite Ht', Hh', Ht. done.
    + destruct Htied as [(Ht & Hh & Hc)|(t & Ht & Hh & Hc)].
      * exfalso. rewrite Hh, Hc in Hcond. destruct Hcond as [Hl|[x Hx]]; done.
      * exists t. rewrite Ht', Hh'. done.
  - destruct (find_client w (clients s)) as [c|]; [|done].
    destruct (has_handlers c); [|done].
    apply (heartbeat_tied_same s); try done. simpl. apply update_client_nil.
  - destruct (find_client w (clients s)) as [c|]; [|done].
    destruct (has_handlers c); [|done].
    destruct (on_message_shape w data s) as (Hc & _ & Ht).
    apply (heartbeat_tied_same s); try done; [|by rewrite Hc].
    unfold on_message. destruct (String.eqb _ _); done.
  - apply (heartbeat_tied_same s); try done. simpl. apply update_client_nil.
  - destruct (find_client w (clients s)) as [c|] eqn:Hfind; [|done].
    destruct (find_client_In _ _ _ Hfind) as [Hin _].
    pose proof (Hall c Hin) as Hc. unfold has_handlers in Hc.
    destruct (clientIP c) as [ip|]; [|done]. clear Hall'.
    destruct Htied as [(_ & _ & Hnil)|(t & Ht & Hh & _)]; [by rewrite Hnil in Hin|].
    destruct (on_close_shape ip (with_clients (remove_client w (clients s)) s))
      as (Hcs & _ & _).
    destruct (on_close_heartbeat ip (with_clients (remove_client w (clients s)) s))
      as [(Hnil & _ & Ht' & Hh')|([Hne|Hnone] & Ht' & Hh')]; simpl in *.
    + left. rewrite Ht', Hh', Hcs, Ht, Hh. by rewrite clearInterval_own.
    + right. exists t. rewrite Ht', Hh', Hcs. done.
    + congruence.
  - destruct (timers s) eqn:Hts; [done|].
    destruct (heartbeat_tick_globals s) as (_ & Hh & Ht & _).
    apply (heartbeat_tied_same s); try done.
    rewrite heartbeat_tick_clients, heartbeat_round_clients.
    by destruct (clients s).
Qed.

(** Along a trace in which no attempt is rejected, the timer is created
    by the first connection and cleared by the close of the last one: it
    runs exactly while [wss.clients] is non-empty. *)
Lemma heartbeat_tied_without_rejections evs : forall s,
  all_handlers s -> heartbeat_tied s -> no_rejections evs s ->
  heartbeat_tied (run evs s).
Proof.
  induction evs as [|ev evs IH]; intros s Hall Htied Hno; [done|].
  destruct Hno as (Hshut & Hall' & Hno). simpl. apply IH; try done.
  by apply heartbeat_tied_step.
Qed.

Example heartbeat_two_sessions :
  timers (run [Connection (valid_request (origin 0))] init) = [0%nat]
  /\ timers (run [Connection (valid_request (origin 0));
                  Connection (valid_request (origin 1)); Close 0%nat] init) = [0%nat]
  /\ timers (run [Connection (valid_request (origin 0));
                  Connection (valid_request (origin 1)); Close 0%nat; Close 1%nat] init) = []
  /\ heartbeat_tied
       (run [Connection (valid_request (origin 0));
             Connection (valid_request (origin 1)); Close 0%nat; Close 1%nat] init).
Proof.
  split; [by vm_compute|]. split; [by vm_compute|]. split; [by vm_compute|].
  apply heartbeat_tied_without_rejections.
  - by intros c [].
  - by left.
  - repeat split; try discriminate; vm_compute; intuition (subst; reflexivity).
Qed.

End RelayFacts.

(** * Properties of the HTTP listener *)

Module ListenerFacts.
Import Listener.

Lemma on_error_timeouts code h :
  timeouts (on_error code h)
  = timeouts h ++ (if String.eqb code "EADDRINUSE" then [1000] else []).
Proof.
  unfold on_error. destruct (String.eqb _ _); simpl; [done|]. by rewrite app_nil_r.
Qed.

Lemma on_error_calls code h :
  listenCalls (on_error code h) = listenCalls h.
Proof. unfold on_error. destruct (String.eqb _ _); done. Qed.

Lemma retries_accounted evs : forall h,
  (listenCalls (run evs h) + length (timeouts (run evs h))
   = listenCalls h + length (timeouts h) + count_events is_EADDRINUSE evs)%nat.
Proof.
  induction evs as [|ev evs IH]; intros h; [simpl; lia|].
  change (run (ev :: evs) h) with (run evs (step h ev)). rewrite IH.
  destruct ev as [code|]; cbn [step count_events is_EADDRINUSE].
  - rewrite on_error_timeouts, on_error_calls, length_app.
    destruct (String.eqb code "EADDRINUSE"); cbn [length]; lia.
  - destruct (timeouts h) eqn:Hpending; simpl; rewrite ?Hpending; simpl; lia.
Qed.

Lemma busy_round h :
  timeouts h = [] ->
  listenCalls (step (step h (ServerError "EADDRINUSE")) TimeoutFires) = S (listenCalls h)
  /\ timeouts (step (step h (ServerError "EADDRINUSE")) TimeoutFires) = [].
Proof. intros Hnil. cbn. rewrite Hnil. done. Qed.

Lemma port_busy_run n : forall h,
  timeouts h = [] ->
  listenCalls (run (port_busy n) h) = (listenCalls h + n)%nat
  /\ timeouts (run (port_busy n) h) = [].
Proof.
  induction n as [|n IH]; intros h Hnil; [split; [simpl; lia|done]|].
  change (run (port_busy (S n)) h)
    with (run (port_busy n) (step (step h (ServerError "EADDRINUSE")) TimeoutFires)).
  destruct (busy_round h Hnil) as [Hcalls Hpending].
  destruct (IH _ Hpending) as [-> ->]. rewrite Hcalls. split; [lia|done].
Qed.

Lemma listenCalls_mono evs : forall h,
  (listenCalls h <= listenCalls (run evs h))%nat.
Proof.
  induction evs as [|ev evs IH]; intros h; [done|].
  change (run (ev :: evs) h) with (run evs (step h ev)).
  etransitivity; [|apply IH]. destruct ev as [code|]; cbn [step].
  - by rewrite on_error_calls.
  - destruct (timeouts h); simpl; lia.
Qed.

(** C9 (amended). Each ['error'] event with code EADDRINUSE arms one retry
    ([server.close(); server.listen(port)]) after a fixed 1000 ms, and an
    error with another code arms none; every retry armed is either pending
    or was performed, so the retries follow the failures one for one: when
    the port stays busy for [n] attempts, [n] retries are performed. *)
Theorem C9_one_retry_per_bind_failure :
  (forall (code : string) (h : Http),
      timeouts (on_error code h)
      = timeouts h ++ (if String.eqb code "EADDRINUSE" then [1000] else []))
  /\ (forall (evs : list Event),
      (retry_attempts (run evs init) + length (timeouts (run evs init))
       = count_events is_EADDRINUSE evs)%nat)
  /\ (forall (n : nat), retry_attempts (run (port_busy n) init) = n).
Proof.
  split; [exact on_error_timeouts|]. split.
  - intros evs. pose proof (retries_accounted evs init) as H.
    pose proof (listenCalls_mono evs init) as Hge.
    change (listenCalls init) with 1%nat in H, Hge.
    change (length (timeouts init)) with 0%nat in H.
    unfold retry_attempts. lia.
  - intros n. destruct (port_busy_run n init eq_refl) as [H _].
    unfold retry_attempts. rewrite H. simpl. lia.
Qed.

(** C9, as stated, fails: while the port stays taken, a second and a third
    bind failure each trigger a further retry. *)
Lemma C9_counterexample :
  ~ (retry_attempts (run (port_busy 3) init) <= 1)%nat.
Proof.
  assert (H : retry_attempts (run (port_busy 3) init) = 3%nat) by reflexivity.
  rewrite H. lia.
Qed.

End ListenerFacts.

(** * Further properties of the per-IP counters *)

Module PerIPMore.
Import PerIP PerIPFacts.

Lemma untrack_track (m : gmap string Z) (ip : string) :
  (forall n, m !! ip = Some n -> 1 <= n) ->
  untrackClientConnection ip (trackClientConnection ip m) = m.
Proof.
  intros Hpos. unfold untrackClientConnection.
  rewrite get_or_0_track_eq. unfold trackClientConnection.
  rewrite get_or_0_default. destruct (m !! ip) as [n|] eqn:Hip; simpl.
  - specialize (Hpos n eq_refl).
    destruct (Z.leb_spec (n + 1) 1) as [Hle|_]; [lia|].
    rewrite insert_insert_eq. apply insert_id. rewrite Hip. f_equal. lia.
  - rewrite delete_insert_eq. by apply delete_id.
Qed.






End PerIPMore.

(** * Further properties of the relay *)

Module RelayMore.
Import PerIP PerIPFacts PerIPMore Relay RelayFacts Endpoints.

(** ** broadcast, include-self variant *)

Lemma deliveries_visit_self ws A p c :
  deliveries ws (broadcast_visit A p true c)
  = if Nat.eqb (wsid c) ws && is_open (readyState c) then [p] else [].
Proof.
  unfold broadcast_visit. destruct (is_open (readyState c)); simpl.
  - destruct (Nat.eqb _ _); done.
  - by rewrite andb_false_r.
Qed.

Lemma deliveries_self_absent ws A p cs :
  ~ In ws (map wsid cs) -> deliveries ws (broadcast_sends A p true cs) = [].
Proof.
  unfold broadcast_sends.
  induction cs as [|c cs IH]; cbn [forEach_effects map In]; [done|].
  intros Hnin. rewrite deliveries_app, deliveries_visit_self, IH by tauto.
  destruct (Nat.eqb_spec (wsid c) ws); [tauto|done].
Qed.

Lemma deliveries_self_present A p cs c :
  NoDup (map wsid cs) -> In c cs ->
  deliveries (wsid c) (broadcast_sends A p true cs)
  = if is_open (readyState c) then [p] else [].
Proof.
  unfold broadcast_sends.
  induction cs as [|c0 cs IH]; cbn [forEach_effects map In]; [done|].
  intros [Hnin Hnd]%NoDup_cons. rewrite list_elem_of_In in Hnin.
  rewrite deliveries_app, deliveries_visit_self. intros [->|Hin].
  - rewrite Nat.eqb_refl. simpl.
    fold (broadcast_sends A p true cs). rewrite deliveries_self_absent by done.
    by rewrite app_nil_r.
  - rewrite IH by done.
    destruct (Nat.eqb_spec (wsid c0) (wsid c)) as [Heq|Hne]; [|done].
    exfalso. apply Hnin. rewrite Heq. by apply in_map.
Qed.

(** X1. [broadcast(ws, p, true)] delivers [p] exactly once to every OPEN socket
    of [wss.clients], the sender included whatever identity is passed as
    sender, and nothing to a socket that is not OPEN; it only calls [send]
    and leaves the sockets as they are. *)
Theorem X_broadcast_include_self :
  forall (A : nat) (p : string) (s : Server),
    NoDup (map wsid (clients s)) ->
    exists sends,
      effects (broadcast A p true s) = effects s ++ sends
      /\ clients (broadcast A p true s) = clients s
      /\ (forall e, In e sends -> exists c, In c (clients s) /\ e = ESend (wsid c) p)
      /\ (forall c, In c (clients s) ->
            deliveries (wsid c) sends = if is_open (readyState c) then [p] else [])
      /\ (forall w, ~ In w (map wsid (clients s)) -> deliveries w sends = []).
Proof.
  intros A p s Hnd. exists (broadcast_sends A p true (clients s)).
  split; [done|]. split; [done|]. split; [apply sends_only|]. split.
  - intros c Hin. by apply deliveries_self_present.
  - intros w Hw. by apply deliveries_self_absent.
Qed.

Lemma X_broadcast_include_self_witness :
  exists sends,
    effects (broadcast 0 "hello" true room) = effects room ++ sends
    /\ clients (broadcast 0 "hello" true room) = clients room
    /\ (forall e, In e sends -> exists c, In c (clients room) /\ e = ESend (wsid c) "hello")
    /\ (forall c, In c (clients room) ->
          deliveries (wsid c) sends = if is_open (readyState c) then ["hello"] else [])
    /\ (forall w, ~ In w (map wsid (clients room)) -> deliveries w sends = []).
Proof.
  apply (X_broadcast_include_self 0 "hello" room).
  apply (bool_decide_unpack _). by vm_compute.
Defined.

(** ** Admission as a whole *)

Lemma authenticateClient_true req :
  authenticateClient req = true <-> authorization req = Some "Bearer valid-token".
Proof.
  unfold authenticateClient. destruct (authorization req) as [token|]; [|done].
  destruct (String.eqb_spec token "Bearer valid-token"); split; congruence.
Qed.

Lemma rejection_None req s :
  rejection req s = None
  <-> authenticateClient req = true
      /\ clients_size s < MAX_TOTAL_CONNECTIONS
      /\ get_or_0 (clientConnections s) (remoteAddress req) < MAX_CONNECTIONS_PER_IP.
Proof.
  unfold rejection. destruct (authenticateClient req); simpl; [|split; [done|]; by intros []].
  destruct (Z.geb_spec (clients_size s) MAX_TOTAL_CONNECTIONS);
    [split; [done|]; intros (_ & ? & _); lia|].
  destruct (Z.geb_spec (get_or_0 (clientConnections s) (remoteAddress req))
                       MAX_CONNECTIONS_PER_IP);
    [split; [done|]; intros (_ & _ & ?); lia|].
  done.
Qed.

(** X5. A connection is registered exactly when the [Authorization] header is
    the string ["Bearer valid-token"], [wss.clients.size] is below 1000 and
    the count of the address is below 10: then its handlers are attached,
    its flag is set and its address is counted.  In every other case the
    handler only logs a warning and closes the socket: the counters, the
    heartbeat variable, the timers and the fields of the other sockets are
    left as they were. *)
Theorem X_registration_iff_all_checks_pass :
  forall (ws : nat) (req : Request) (s : Server),
    (rejection req s = None
     <-> authorization req = Some "Bearer valid-token"
         /\ clients_size s < MAX_TOTAL_CONNECTIONS
         /\ get_or_0 (clientConnections s) (remoteAddress req) < MAX_CONNECTIONS_PER_IP)
    /\ (rejection req s = None ->
          clientConnections (on_connection ws req s)
          = trackClientConnection (remoteAddress req) (clientConnections s)
          /\ clients (on_connection ws req s)
             = update_client ws
                 (fun c => set_isAlive true (attach_handlers (remoteAddress req) c))
                 (clients s))
    /\ (forall r, rejection req s = Some r ->
          clientConnections (on_connection ws req s) = clientConnections s
          /\ heartbeatInterval (on_connection ws req s) = heartbeatInterval s
          /\ timers (on_connection ws req s) = timers s
          /\ clients (on_connection ws req s)
             = update_client ws (set_readyState CLOSING) (clients s)).
Proof.
  intros ws req s. split; [|split].
  - rewrite rejection_None, authenticateClient_true. done.
  - intros Hr. rewrite on_connection_rejection, Hr.
    split; [apply open_session_counts | apply open_session_clients].
  - intros r Hr. rewrite on_connection_rejection, Hr. done.
Qed.

(** ** Limits that hold in every reachable state *)

Lemma on_close_counts ip s :
  clientConnections (on_close ip s) = untrackClientConnection ip (clientConnections s).
Proof.
  unfold on_close.
  match goal with |- context [if ?b then _ else _] => destruct b end; done.
Qed.

Lemma step_counts s ev :
  clientConnections (step s ev) = clientConnections s
  \/ (exists req, ev = Connection req
        /\ rejection req (accept_socket s) = None
        /\ clientConnections (step s ev)
           = trackClientConnection (remoteAddress req) (clientConnections s))
  \/ (exists ip, clientConnections (step s ev)
                 = untrackClientConnection ip (clientConnections s)).
Proof.
  destruct ev as [req|w|w data|w|w| |]; simpl; try by left.
  - rewrite on_connection_rejection.
    destruct (rejection req (accept_socket s)) as [r|] eqn:Hr; [by left|].
    right. left. exists req. repeat split; try done. by rewrite open_session_counts.
  - destruct (find_client w (clients s)) as [c|]; [|by left].
    destruct (has_handlers c); by left.
  - destruct (find_client w (clients s)) as [c|]; [|by left].
    destruct (has_handlers c); [|by left].
    left. unfold on_message. destruct (String.eqb _ _); done.
  - destruct (find_client w (clients s)) as [c|]; [|by left].
    destruct (clientIP c) as [ip|]; [|by left].
    right. right. exists ip. by rewrite on_close_counts.
  - destruct (timers s); [by left|]. left.
    by destruct (heartbeat_tick_globals s) as (-> & _).
Qed.

Lemma get_or_0_untrack_le m ip ip' bound :
  0 <= bound -> get_or_0 m ip' <= bound ->
  get_or_0 (untrackClientConnection ip m) ip' <= bound.
Proof.
  intros Hb Hle. destruct (decide (ip = ip')) as [<-|Hne];
    [|by rewrite get_or_0_untrack_ne].
  unfold untrackClientConnection.
  destruct (Z.leb_spec (get_or_0 m ip) 1) as [_|Hgt].
  - by rewrite (get_or_0_default (delete _ _)), lookup_delete_eq.
  - rewrite (get_or_0_default (<[_ := _]> _)), lookup_insert_eq. simpl. lia.
Qed.

Lemma cap_step s ev :
  (forall ip, get_or_0 (clientConnections s) ip <= MAX_CONNECTIONS_PER_IP) ->
  forall ip, get_or_0 (clientConnections (step s ev)) ip <= MAX_CONNECTIONS_PER_IP.
Proof.
  intros Hcap ip.
  destruct (step_counts s ev) as [->|[(req & _ & Hr & ->)|(ip0 & ->)]]; [done| |].
  - apply rejection_None in Hr as (_ & _ & Hlt). simpl in Hlt.
    destruct (decide (remoteAddress req = ip)) as [<-|Hne].
    + rewrite get_or_0_track_eq. lia.
    + by rewrite get_or_0_track_ne.
  - by apply get_or_0_untrack_le.
Qed.

Lemma cap_run evs : forall s,
  (forall ip, get_or_0 (clientConnections s) ip <= MAX_CONNECTIONS_PER_IP) ->
  forall ip, get_or_0 (clientConnections (run evs s)) ip <= MAX_CONNECTIONS_PER_IP.
Proof.
  induction evs as [|ev evs IH]; intros s Hcap; [done|].
  simpl. apply IH. by apply cap_step.
Qed.

(** X3. Whatever the sequence of connection attempts, frames, closes and
    heartbeat rounds, every count stored in [clientConnections] lies between
    1 and [MAX_CONNECTIONS_PER_IP] = 10. *)
Theorem X_counts_within_per_ip_limit :
  forall (evs : list Event) (ip : string) (n : Z),
    clientConnections (run evs init) !! ip = Some n ->
    1 <= n <= MAX_CONNECTIONS_PER_IP.
Proof.
  intros evs ip n Hip. split.
  - by apply (inv_pos _ (Inv_run evs init Inv_init) ip).
  - assert (Hcap : get_or_0 (clientConnections (run evs init)) ip
                   <= MAX_CONNECTIONS_PER_IP).
    { apply cap_run. intros ip'.
      change (clientConnections init) with (∅ : gmap string Z).
      by rewrite get_or_0_default, lookup_empty. }
    by rewrite get_or_0_default, Hip in Hcap.
Qed.

Lemma X_counts_within_per_ip_limit_witness :
  1 <= 10 <= MAX_CONNECTIONS_PER_IP.
Proof.
  apply (X_counts_within_per_ip_limit
           (crowd 10 ++ [Connection (valid_request (origin 0))]) (origin 0) 10).
  by vm_compute.
Defined.

Lemma n_some_le_length l : (n_some l <= length l)%nat.
Proof. induction l as [|[x|] l IH]; simpl; lia. Qed.

Lemma sum_values_untrack_le m ip :
  positive_counts m -> sum_values (untrackClientConnection ip m) <= sum_values m.
Proof.
  intros Hpos. pose proof (positive_get_or_0 m ip Hpos) as Hge.
  unfold untrackClientConnection.
  destruct (Z.leb_spec (get_or_0 m ip) 1) as [_|Hgt].
  - rewrite sum_values_delete. lia.
  - rewrite sum_values_insert. lia.
Qed.

Lemma total_step s ev :
  Inv s ->
  Z.of_nat (n_some (map clientIP (clients s))) < MAX_TOTAL_CONNECTIONS ->
  Z.of_nat (n_some (map clientIP (clients (step s ev)))) < MAX_TOTAL_CONNECTIONS.
Proof.
  intros HI Hlt. pose proof (Inv_step s ev HI) as HI'.
  rewrite <- (inv_sum _ HI'). rewrite <- (inv_sum _ HI) in Hlt.
  destruct (step_counts s ev) as [->|[(req & _ & Hr & ->)|(ip0 & ->)]]; [done| |].
  - apply rejection_None in Hr as (_ & Hsize & _).
    unfold clients_size in Hsize. simpl in Hsize. rewrite length_app in Hsize.
    simpl in Hsize. rewrite sum_values_track, (inv_sum _ HI).
    pose proof (n_some_le_length (map clientIP (clients s))) as Hle.
    rewrite length_map in Hle. lia.
  - pose proof (sum_values_untrack_le _ ip0 (inv_pos _ HI)). lia.
Qed.

(** X4. The number of registered connections never reaches
    [MAX_TOTAL_CONNECTIONS]: the size test counts the socket being admitted,
    so at most 999 connections are registered at any time. *)
Theorem X_registered_below_total_limit :
  forall (evs : list Event),
    Z.of_nat (length (activeConnections (run evs init))) < MAX_TOTAL_CONNECTIONS.
Proof.
  intros evs. rewrite active_length.
  assert (H : forall s, Inv s ->
            Z.of_nat (n_some (map clientIP (clients s))) < MAX_TOTAL_CONNECTIONS ->
            Z.of_nat (n_some (map clientIP (clients (run evs s)))) < MAX_TOTAL_CONNECTIONS).
  { induction evs as [|ev evs IH]; intros s HI Hlt; [done|].
    simpl. apply IH; [by apply Inv_step | by apply total_step]. }
  apply H; [apply Inv_init | done].
Qed.

(** ** The heartbeat timer *)

Lemma timer_inv_run evs : forall s, timer_inv s -> timer_inv (run evs s).
Proof.
  induction evs as [|ev evs IH]; intros s Hs; [done|].
  simpl. apply IH. by apply timer_inv_step.
Qed.

Lemma clearInterval_idem h ts :
  clearInterval h (clearInterval h ts) = clearInterval h ts.
Proof.
  destruct h as [t|]; simpl; [|done].
  induction ts as [|t' ts IH]; [done|].
  rewrite (filter_cons _ t' ts). case_decide as Hne.
  - rewrite filter_cons, decide_True by done. by rewrite IH.
  - done.
Qed.

(** X6. In every reachable state at most one interval timer of the heartbeat
    is alive: [startHeartbeat] runs only while [heartbeatInterval] is unset,
    and both places that clear a timer clear the one it refers to. *)
Theorem X_at_most_one_heartbeat_timer :
  forall (evs : list Event), (length (timers (run evs init)) <= 1)%nat.
Proof. exact heartbeat_at_most_one. Qed.

(** X7. When every socket of [wss.clients] carries the script's handlers before
    and after each event of a trace without server shutdown (no attempt is
    rejected), the heartbeat timer runs exactly while the set is non-empty:
    it is created by the connection that makes the set non-empty and
    cleared, with [heartbeatInterval] reset, by the ['close'] that empties
    it. *)
Theorem X_heartbeat_follows_clients_without_rejections :
  forall (evs : list Event) (s : Server),
    all_handlers s -> heartbeat_tied s -> no_rejections evs s ->
    heartbeat_tied (run evs s).
Proof. exact heartbeat_tied_without_rejections. Qed.

Lemma X_heartbeat_follows_clients_witness :
  heartbeat_tied
    (run [Connection (valid_request (origin 0));
          Connection (valid_request (origin 1)); Close 0%nat] init).
Proof.
  apply X_heartbeat_follows_clients_without_rejections.
  - by intros c [].
  - by left.
  - repeat split; try discriminate; vm_compute; intuition (subst; reflexivity).
Defined.

(** X8. The ['close'] handler of the server leaves no heartbeat timer alive in
    any reachable state, running it a second time changes nothing, and after
    the ['close'] of the last connection has stopped the heartbeat it finds
    nothing to clear. *)
Theorem X_server_close_clears_heartbeat :
  (forall (evs : list Event), timers (step (run evs init) WssClose) = [])
  /\ (forall (s : Server), on_wss_close (on_wss_close s) = on_wss_close s)
  /\ (forall (s : Server), on_wss_close (stop_heartbeat s) = stop_heartbeat s).
Proof.
  split; [|split].
  - intros evs.
    change (step (run evs init) WssClose) with (on_wss_close (run evs init)).
    apply (timer_inv_clear (run evs init)); [|done].
    apply timer_inv_run. by left.
  - intros s. unfold on_wss_close. simpl. by rewrite clearInterval_idem.
  - intros s. done.
Qed.

(** ** What a heartbeat round leaves alone *)

Lemma visit_readyState c :
  readyState (fst (heartbeat_visit c)) = CLOSING
  \/ readyState (fst (heartbeat_visit c)) = readyState c.
Proof.
  unfold heartbeat_visit. destruct (isAlive c) as [[]|]; simpl;
    try (destruct (is_open _)); tauto.
Qed.

Lemma visit_effects c e :
  In e (snd (heartbeat_visit c)) ->
  e = EPing (wsid c) \/ e = ETerminate (wsid c)
  \/ e = EConsole "Terminating unresponsive client".
Proof.
  unfold heartbeat_visit. destruct (isAlive c) as [[]|]; simpl;
    try (destruct (is_open _); simpl); intuition.
Qed.

(** X9. A heartbeat round never removes a socket and never touches the
    counters, the attached handlers, the heartbeat variable or the timers;
    after it every socket of the set has [isAlive = false]; what it emits
    are pings and terminations of sockets of the set; on an empty set it
    changes nothing at all. *)
Theorem X_heartbeat_round_keeps_registry :
  forall (s : Server),
    map wsid (clients (heartbeat_tick s)) = map wsid (clients s)
    /\ map clientIP (clients (heartbeat_tick s)) = map clientIP (clients s)
    /\ clientConnections (heartbeat_tick s) = clientConnections s
    /\ heartbeatInterval (heartbeat_tick s) = heartbeatInterval s
    /\ timers (heartbeat_tick s) = timers s
    /\ (forall c, In c (clients (heartbeat_tick s)) -> isAlive c = Some false)
    /\ (forall e, In e (tick_effects s) ->
          exists w, In w (map wsid (clients s))
                    /\ (e = EPing w \/ e = ETerminate w
                        \/ e = EConsole "Terminating unresponsive client"))
    /\ (clients s = [] -> heartbeat_tick s = s).
Proof.
  intros s. destruct (heartbeat_tick_globals s) as (Hm & Hh & Ht & _ & _).
  repeat split; try done.
  - rewrite heartbeat_tick_clients. apply heartbeat_round_ids.
  - rewrite heartbeat_tick_clients. apply heartbeat_round_ips.
  - intros c. rewrite heartbeat_tick_clients. apply tick_flags.
  - intros e. unfold tick_effects. rewrite heartbeat_round_effects.
    intros (c & Hc & He)%in_forEach_effects. exists (wsid c).
    split; [by apply in_map | by apply visit_effects].
  - intros Hnil. unfold heartbeat_tick. rewrite Hnil. simpl.
    destruct s; simpl in *. subst. unfold emit, with_clients. simpl.
    by rewrite app_nil_r.
Qed.

(** ** Rejected sockets *)

Lemma rejected_closing_step s ev : rejected_closing s -> rejected_closing (step s ev).
Proof.
  intros Hrc. destruct ev as [req|w|w data|w|w| |]; simpl; try done.
  - rewrite on_connection_rejection.
    destruct (rejection req (accept_socket s)) as [r|].
    + simpl. intros c [[Hin Hne]|(c0 & _ & _ & ->)]%in_update_client Hno; [|done].
      apply in_app_or in Hin as [Hin|[<-|[]]]; [by apply Hrc|]. by destruct Hne.
    + unfold rejected_closing. rewrite open_session_clients. simpl.
      intros c [[Hin Hne]|(c0 & _ & _ & ->)]%in_update_client Hno; [|done].
      apply in_app_or in Hin as [Hin|[<-|[]]]; [by apply Hrc|]. by destruct Hne.
  - destruct (find_client w (clients s)) as [c0|]; [|done].
    destruct (has_handlers c0); [|done]. simpl.
    intros c [[Hin _]|(c1 & Hin & _ & ->)]%in_update_client Hno; [by apply Hrc|].
    by apply (Hrc c1).
  - destruct (find_client w (clients s)) as [c0|]; [|done].
    destruct (has_handlers c0); [|done].
    unfold rejected_closing. by destruct (on_message_shape w data s) as (-> & _).
  - intros c [[Hin _]|(c1 & Hin & _ & ->)]%in_update_client Hno; [by apply Hrc|done].
  - destruct (find_client w (clients s)) as [c0|]; [|done].
    assert (Hrem : rejected_closing (with_clients (remove_client w (clients s)) s)).
    { intros c Hin Hno. apply Hrc; [|done]. by apply (remove_client_In w). }
    destruct (clientIP c0) as [ip|]; [|done].
    unfold rejected_closing.
    by destruct (on_close_shape ip (with_clients (remove_client w (clients s)) s))
      as (-> & _).
  - destruct (timers s); [done|].
    intros c. rewrite heartbeat_tick_clients, heartbeat_round_clients.
    intros (c0 & <- & Hin)%in_map_iff Hno.
    unfold has_handlers in Hno. rewrite heartbeat_visit_ip in Hno.
    destruct (visit_readyState c0) as [Hr|Hr]; rewrite Hr; [done|]. by apply Hrc.
Qed.

Lemma rejected_closing_run evs : rejected_closing (run evs init).
Proof.
  assert (H0 : rejected_closing init) by (by intros c []).
  revert H0. generalize init.
  induction evs as [|ev evs IH]; intros s Hs; [done|].
  simpl. apply IH. by apply rejected_closing_step.
Qed.

(** X10. In every reachable state a socket whose admission was rejected (it is
    still in [wss.clients], without handlers) is CLOSING: no broadcast, of
    either variant and from any sender, delivers a payload to it, and a
    heartbeat round sends it no ping. *)
Theorem X_rejected_sockets_get_no_traffic :
  forall (evs : list Event) (c : Client),
    In c (clients (run evs init)) -> has_handlers c = false ->
    readyState c = CLOSING
    /\ (forall A p includeSelf,
          deliveries (wsid c)
            (broadcast_sends A p includeSelf (clients (run evs init))) = [])
    /\ ~ In (EPing (wsid c)) (tick_effects (run evs init)).
Proof.
  intros evs c Hin Hno.
  pose proof (rejected_closing_run evs c Hin Hno) as Hclosing.
  destruct (reachable_distinct_ids evs) as [Hnd _].
  split; [done|]. split.
  - intros A p [|].
    + rewrite deliveries_self_present by done. by rewrite Hclosing.
    + rewrite deliveries_present by done. rewrite Hclosing. by rewrite andb_false_r.
  - intros (c' & Hin' & Heq & _ & Hopen)%tick_pings.
    rewrite (NoDup_ids_eq _ _ _ Hnd Hin' Hin Heq) in Hopen. congruence.
Qed.

Lemma X_rejected_sockets_witness :
  readyState {| wsid := 0; readyState := CLOSING; isAlive := None; clientIP := None |}
  = CLOSING
  /\ (forall A p includeSelf,
        deliveries 0
          (broadcast_sends A p includeSelf
             (clients (run [Connection (anonymous_request (origin 0));
                            Connection (valid_request (origin 1))] init))) = [])
  /\ ~ In (EPing 0)
         (tick_effects (run [Connection (anonymous_request (origin 0));
                             Connection (valid_request (origin 1))] init)).
Proof.
  apply (X_rejected_sockets_get_no_traffic
           [Connection (anonymous_request (origin 0));
            Connection (valid_request (origin 1))]
           {| wsid := 0; readyState := CLOSING; isAlive := None; clientIP := None |}).
  - by left.
  - reflexivity.
Defined.

(** ** The figures served by the HTTP endpoints *)

Lemma sum_counts_map_to_list (m : gmap string Z) :
  sum_counts (map_to_list m) = sum_values m.
Proof.
  unfold sum_values, sum_counts. rewrite map_fold_foldr.
  induction (map_to_list m) as [|[k v] l IH]; simpl; [done|]. by rewrite IH.
Qed.

(** X11. In every reachable state the pairs listed by [/metrics] under
    [connectionsPerIP] have distinct addresses and counts between 1 and 10,
    each count is the number of registered sockets of its address, and the
    counts add up to the number of registered connections; the figure
    [activeConnections], which is also the [connections] figure of
    [/health], is [wss.clients.size] and is never below that sum (it also
    counts rejected sockets that have not closed yet). *)
Theorem X_metrics_consistent :
  forall (evs : list Event),
    sum_counts (metrics_connectionsPerIP (metrics (run evs init)))
    = Z.of_nat (length (activeConnections (run evs init)))
    /\ sum_counts (metrics_connectionsPerIP (metrics (run evs init)))
       <= metrics_activeConnections (metrics (run evs init))
    /\ health_connections (run evs init)
       = metrics_activeConnections (metrics (run evs init))
    /\ NoDup (metrics_connectionsPerIP (metrics (run evs init))).*1
    /\ (forall ip n,
          (ip, n) ∈ metrics_connectionsPerIP (metrics (run evs init)) ->
          1 <= n <= MAX_CONNECTIONS_PER_IP
          /\ n = Z.of_nat (n_ip ip (map clientIP (clients (run evs init))))).
Proof.
  intros evs. pose proof (Inv_run evs init Inv_init) as HI.
  assert (Hsum : sum_counts (metrics_connectionsPerIP (metrics (run evs init)))
                 = Z.of_nat (n_some (map clientIP (clients (run evs init))))).
  { simpl. rewrite sum_counts_map_to_list. apply (inv_sum _ HI). }
  split; [by rewrite active_length|]. split; [|split; [done|split]].
  - rewrite Hsum. simpl. unfold clients_size.
    pose proof (n_some_le_length (map clientIP (clients (run evs init)))) as Hle.
    rewrite length_map in Hle. lia.
  - simpl. apply NoDup_fst_map_to_list.
  - intros ip n Hin. simpl in Hin. apply elem_of_map_to_list in Hin.
    assert (Hget : get_or_0 (clientConnections (run evs init)) ip = n).
    { by rewrite get_or_0_default, Hin. }
    split; [split|].
    + by apply (inv_pos _ HI ip).
    + rewrite <- Hget. apply cap_run. intros ip'.
      change (clientConnections init) with (∅ : gmap string Z).
      by rewrite get_or_0_default, lookup_empty.
    + rewrite <- Hget. apply (inv_count _ HI).
Qed.

(** ** A connection that opens and closes *)

Lemma find_client_app_fresh w cs c :
  (forall c', In c' cs -> wsid c' ≠ w) -> wsid c = w ->
  find_client w (cs ++ [c]) = Some c.
Proof.
  intros Hne Hw. induction cs as [|c0 cs IH]; simpl.
  - rewrite Hw, Nat.eqb_refl. done.
  - destruct (Nat.eqb_spec (wsid c0) w) as [Heq|_].
    + exfalso. apply (Hne c0); [by left|done].
    + apply IH. intros c' Hin. apply Hne. by right.
Qed.

Lemma remove_client_app_fresh w cs c :
  (forall c', In c' cs -> wsid c' ≠ w) -> wsid c = w ->
  remove_client w (cs ++ [c]) = cs.
Proof.
  intros Hne Hw. induction cs as [|c0 cs IH]; simpl.
  - rewrite Hw, Nat.eqb_refl. done.
  - destruct (Nat.eqb_spec (wsid c0) w) as [Heq|_].
    + exfalso. apply (Hne c0); [by left|done].
    + f_equal. apply IH. intros c' Hin. apply Hne. by right.
Qed.

Lemma update_client_app_fresh w f cs c :
  (forall c', In c' cs -> wsid c' ≠ w) -> wsid c = w ->
  update_client w f (cs ++ [c]) = cs ++ [f c].
Proof.
  intros Hne Hw. rewrite update_client_app, update_client_absent by done.
  simpl. by rewrite Hw, Nat.eqb_refl.
Qed.

(** X12. From any reachable state, a connection attempt followed by the
    ['close'] of the same socket restores [wss.clients] and
    [clientConnections], whether the attempt was accepted or rejected. *)
Theorem X_connect_then_close_restores_registry :
  forall (evs : list Event) (req : Request),
    clients (run [Connection req; Close (nextId (run evs init))] (run evs init))
    = clients (run evs init)
    /\ clientConnections
         (run [Connection req; Close (nextId (run evs init))] (run evs init))
       = clientConnections (run evs init).
Proof.
  intros evs req. pose proof (Inv_run evs init Inv_init) as HI.
  remember (run evs init) as s eqn:Hs. clear Hs evs.
  assert (Hfresh : forall c', In c' (clients s) -> wsid c' ≠ nextId s).
  { intros c' Hin Heq. pose proof (inv_fresh _ HI c' Hin). lia. }
  change (run [Connection req; Close (nextId s)] s)
    with (step (on_connection (nextId s) req (accept_socket s)) (Close (nextId s))).
  rewrite on_connection_rejection.
  destruct (rejection req (accept_socket s)) as [r|].
  - remember (ws_close (nextId s) (close_code r) (close_reason r)
                (logger Warn (warning r) (accept_socket s))) as s1 eqn:Hs1.
    assert (Hcs : clients s1
                  = clients s ++ [set_readyState CLOSING (new_client (nextId s))]).
    { subst s1. simpl. by apply update_client_app_fresh. }
    assert (Hm : clientConnections s1 = clientConnections s) by (by subst s1).
    unfold step. rewrite Hcs, find_client_app_fresh by done. simpl.
    rewrite remove_client_app_fresh by done. done.
  - remember (open_session (nextId s) (remoteAddress req) (accept_socket s))
      as s1 eqn:Hs1.
    assert (Hcs : clients s1
                  = clients s ++ [set_isAlive true
                                    (attach_handlers (remoteAddress req)
                                       (new_client (nextId s)))]).
    { subst s1. rewrite open_session_clients. simpl.
      by apply (update_client_app_fresh _
                  (fun c => set_isAlive true (attach_handlers (remoteAddress req) c))). }
    assert (Hm : clientConnections s1
                 = trackClientConnection (remoteAddress req) (clientConnections s)).
    { subst s1. by rewrite open_session_counts. }
    unfold step. rewrite Hcs, find_client_app_fresh by done.
    cbn [clientIP set_isAlive attach_handlers].
    destruct (on_close_shape (remoteAddress req)
                (with_clients
                   (remove_client (nextId s)
                      (clients s ++ [set_isAlive true
                                       (attach_handlers (remoteAddress req)
                                          (new_client (nextId s)))])) s1))
      as (-> & _).
    rewrite on_close_counts. simpl.
    rewrite remove_client_app_fresh by done. split; [done|].
    rewrite Hm. apply untrack_track. intros n Hn. by apply (inv_pos _ HI _ _ Hn).
Qed.

(** ** Instances *)

Lemma X_registration_witness :
  (clientConnections
     (on_connection 0 (valid_request (origin 0)) (accept_socket init))
   = trackClientConnection (remoteAddress (valid_request (origin 0)))
       (clientConnections (accept_socket init))
   /\ clients (on_connection 0 (valid_request (origin 0)) (accept_socket init))
      = update_client 0
          (fun c => set_isAlive true
                      (attach_handlers (remoteAddress (valid_request (origin 0))) c))
          (clients (accept_socket init)))
  /\ (clientConnections
        (on_connection 0 (anonymous_request (origin 0)) (accept_socket init))
      = clientConnections (accept_socket init)
      /\ heartbeatInterval
           (on_connection 0 (anonymous_request (origin 0)) (accept_socket init))
         = heartbeatInterval (accept_socket init)
      /\ timers (on_connection 0 (anonymous_request (origin 0)) (accept_socket init))
         = timers (accept_socket init)
      /\ clients (on_connection 0 (anonymous_request (origin 0)) (accept_socket init))
         = update_client 0 (set_readyState CLOSING) (clients (accept_socket init))).
Proof.
  split.
  - apply (proj1 (proj2 (X_registration_iff_all_checks_pass
                           0 (valid_request (origin 0)) (accept_socket init)))).
    reflexivity.
  - apply (proj2 (proj2 (X_registration_iff_all_checks_pass
                           0 (anonymous_request (origin 0)) (accept_socket init)))
             Unauthorized).
    reflexivity.
Defined.

Lemma X_heartbeat_round_witness :
  isAlive (socket0 OPEN false) = Some false
  /\ (exists w, In w (map wsid (clients lobby))
                /\ (EPing 0 = EPing w \/ EPing 0 = ETerminate w
                    \/ EPing 0 = EConsole "Terminating unresponsive client"))
  /\ heartbeat_tick init = init.
Proof.
  destruct (X_heartbeat_round_keeps_registry lobby)
    as (_ & _ & _ & _ & _ & Hflags & Heffects & _).
  destruct (X_heartbeat_round_keeps_registry init)
    as (_ & _ & _ & _ & _ & _ & _ & Hempty).
  split; [|split].
  - apply Hflags. by left.
  - apply Heffects. by left.
  - by apply Hempty.
Defined.

Lemma X_metrics_witness :
  1 <= 3 <= MAX_CONNECTIONS_PER_IP
  /\ 3 = Z.of_nat (n_ip (origin 0) (map clientIP (clients (run (crowd 3) init)))).
Proof.
  destruct (X_metrics_consistent (crowd 3)) as (_ & _ & _ & _ & Hentries).
  apply Hentries. simpl. apply elem_of_map_to_list. by vm_compute.
Defined.

End RelayMore.

(** * Further properties of the HTTP listener *)

Module ListenerMore.
Import Listener ListenerFacts Endpoints.

Lemma on_error_closeCalls code h : closeCalls (on_error code h) = closeCalls h.
Proof. unfold on_error. destruct (String.eqb _ _); done. Qed.

Lemma on_error_log code h :
  length (errorLog (on_error code h))
  = (length (errorLog h) + 1 + (if String.eqb code "EADDRINUSE" then 1 else 0))%nat.
Proof.
  unfold on_error. destruct (String.eqb _ _); simpl; rewrite !length_app; simpl; lia.
Qed.

Record listener_inv (h0 h : Http) (evs : list Event) : Prop := {
  li_close : (closeCalls h + listenCalls h0 = closeCalls h0 + listenCalls h)%nat;
  li_delay : Forall (fun d => d = 1000) (timeouts h0) ->
             Forall (fun d => d = 1000) (timeouts h);
  li_log : length (errorLog h)
           = (length (errorLog h0) + count_events is_server_error evs
              + count_events is_EADDRINUSE evs)%nat
}.

Lemma listener_inv_run evs : forall h0, listener_inv h0 (run evs h0) evs.
Proof.
  induction evs as [|ev evs IH]; intros h0.
  - split; simpl; [lia|done|lia].
  - change (run (ev :: evs) h0) with (run evs (step h0 ev)).
    destruct (IH (step h0 ev)) as [Hc Hd Hl]. split.
    + destruct ev as [code|]; cbn [step] in *.
      * rewrite on_error_closeCalls, on_error_calls in Hc. lia.
      * destruct (timeouts h0); simpl in *; lia.
    + intros H0. apply Hd. destruct ev as [code|]; cbn [step].
      * rewrite on_error_timeouts. apply Forall_app. split; [done|].
        destruct (String.eqb _ _); by repeat constructor.
      * destruct (timeouts h0) as [|d rest] eqn:Hp; [by rewrite Hp|].
        simpl. by apply Forall_cons in H0 as [_ H0].
    + rewrite Hl. destruct ev as [code|]; cbn [step count_events is_server_error
                                                 is_EADDRINUSE is_timeout negb].
      * rewrite on_error_log. destruct (String.eqb code "EADDRINUSE"); lia.
      * destruct (timeouts h0); simpl; lia.
Qed.

(** X13. Whatever errors the HTTP server reports and whenever the timers fire:
    every retry calls [server.close()] once and [server.listen] once, every
    pending retry waits 1000 ms, and the error log holds one line per error
    plus one more per EADDRINUSE error. *)
Theorem X_listener_retry_bookkeeping :
  forall (evs : list Event),
    closeCalls (run evs init) = retry_attempts (run evs init)
    /\ Forall (fun d => d = 1000) (timeouts (run evs init))
    /\ length (errorLog (run evs init))
       = (count_events is_server_error evs + count_events is_EADDRINUSE evs)%nat.
Proof.
  intros evs. destruct (listener_inv_run evs init) as [Hc Hd Hl].
  change (listenCalls init) with 1%nat in Hc.
  change (closeCalls init) with 0%nat in Hc.
  split; [unfold retry_attempts; lia|]. split; [by apply Hd|].
  rewrite Hl. done.
Qed.

End ListenerMore.
